(** * mcm: the catalog applier ([exec/execlib/execlib.go])

    A shallow embedding of the applier of the Minimal Configuration
    Manager.  The Go code talks to the host through three interfaces
    ([system.System], [Logger], [context.Context]); here each of them is a
    record of functions over an abstract world [W], and every function of
    [execlib.go] becomes a computation in a small state monad that threads
    the world and records the calls made. *)

From Stdlib Require Import List String Ascii NArith Bool Arith Lia DecimalString.
Import ListNotations.
Local Open Scope list_scope.

(** ** Go values shared by all packages *)

(** Errno-like classification of the errors of package [os]; [os.IsExist]
    and [os.IsNotExist] look at nothing else. *)
Inductive oskind : Type := ErrExist | ErrNotExist | ErrPermission | ErrOther.

(** The two values [ctx.Err()] can take once [ctx.Done()] is closed. *)
Inductive ctxerr : Type := Canceled | DeadlineExceeded.

(** Errors of [depgraph.New] (spec section 4.1). *)
Inductive construction : Type :=
| ZeroID
| DuplicateID (id : N)
| MissingDep (from to : N)
| Cycle (ids : list N).

(** The identity of a resource as carried by an [*Error]. *)
Record resourceRef : Type := { refID : N; refComment : string }.

(** The dynamic values of Go's [error] interface that the applier can see.
    [Errorf] keeps the format and the arguments of an [errorf] call apart
    instead of rendering them. *)
Inductive error : Type :=
| errorString (s : string)
| Errorf (format : string) (args : list fmtArg)
| osError (k : oskind) (msg : string)
| ExitError (msg : string)
| contextError (c : ctxerr)
| ConstructionError (c : construction)
| capnpError (msg : string)
| mkError (resource : option resourceRef) (cause : error) (output : option string)
with fmtArg : Type :=
| argString (s : string)
| argInt (n : N)
| argTag (tag : N)
| argError (e : error).

(** A Go value of type [error]: [None] is [nil]. *)
Definition goerror : Type := option error.

(** A Go result pair [(T, error)] with exactly one side meaningful. *)
Inductive result (A : Type) : Type :=
| Ok (a : A)
| Err (e : error).
Arguments Ok {A} a.
Arguments Err {A} e.

(** [v, _ := f()]: a failed read leaves the zero value. *)
Definition orZero {A : Type} (zero : A) (r : result A) : A :=
  match r with Ok a => a | Err _ => zero end.

(** [os.IsExist] and [os.IsNotExist]. *)
Definition IsExist (e : error) : bool :=
  match e with osError ErrExist _ => true | _ => false end.

Definition IsNotExist (e : error) : bool :=
  match e with osError ErrNotExist _ => true | _ => false end.

(** The type assertion of [err] to a pointer to [exec.ExitError], for a
    non-nil [err]. *)
Definition isExitError (e : error) : bool :=
  match e with ExitError _ => true | _ => false end.

(** [filepath.IsAbs] on a Unix build: the path starts with a slash. *)
Definition IsAbs (p : string) : bool :=
  match p with
  | String c _ => Ascii.eqb c "/"%char
  | EmptyString => false
  end.

(** [strings.Join]. *)
Fixpoint Join (l : list string) (sep : string) : string :=
  match l with
  | [] => EmptyString
  | [s] => s
  | s :: l' => (s ++ sep ++ Join l' sep)%string
  end.

(** [%d] of an unsigned integer. *)
Definition decimal (n : N) : string := NilZero.string_of_uint (N.to_uint n).

(** ** Package [catalog]: the decoded catalog

    The accessors of the generated capnp code return a value and an error;
    a field whose accessor can fail is a [result]. *)
Module catalog.

Record EnvVar : Type := {
  NameBytes : result string;
  ValueBytes : result string
}.

Inductive Exec_Command_Which : Type :=
| Exec_Command_Which_argv (argv : result (list (result string)))
| Exec_Command_Which_other (tag : N).

Record Exec_Command : Type := {
  Command_Which : Exec_Command_Which;
  Environment : result (list EnvVar);
  WorkingDirectory : result string
}.

Inductive Exec_condition : Type :=
| Exec_condition_Which_always
| Exec_condition_Which_onlyIf (c : result Exec_Command)
| Exec_condition_Which_unless (c : result Exec_Command)
| Exec_condition_Which_fileAbsent (p : result string)
| Exec_condition_Which_other (tag : N).

Record Exec : Type := {
  Command : result Exec_Command;
  Condition : Exec_condition
}.

(** [File_Which_plain None] is a plain file without content
    ([HasContent() = false]). *)
Inductive File_Which : Type :=
| File_Which_plain (content : option (result string))
| File_Which_directory
| File_Which_symlink (target : result string)
| File_Which_absent
| File_Which_other (tag : N).

Record File : Type := {
  Path : result string;
  Which : File_Which
}.

Inductive Resource_Which : Type :=
| Resource_Which_noop
| Resource_Which_file (f : result File)
| Resource_Which_exec (e : result Exec)
| Resource_Which_other (tag : N).

Record Resource : Type := {
  ID : N;
  Comment : result string;
  Dependencies : list N;
  Body : Resource_Which
}.

Record Catalog : Type := { Resources : result (list Resource) }.

End catalog.

(** ** Package [system]: the host interface *)
Module system.

Record Cmd : Type := {
  Path : string;
  Args : list string;
  Env : list string;
  Dir : string
}.

(** [os.FileMode] is a 32-bit word; the type bits are those of package
    [os]. *)
Definition FileMode : Type := N.

Definition ModeDir : FileMode := N.shiftl 1 31.
Definition ModeSymlink : FileMode := N.shiftl 1 27.
Definition ModeDevice : FileMode := N.shiftl 1 26.
Definition ModeNamedPipe : FileMode := N.shiftl 1 25.
Definition ModeSocket : FileMode := N.shiftl 1 24.
Definition ModeCharDevice : FileMode := N.shiftl 1 21.
Definition ModeIrregular : FileMode := N.shiftl 1 19.

Definition ModeType : FileMode :=
  N.lor ModeDir (N.lor ModeSymlink (N.lor ModeNamedPipe
    (N.lor ModeSocket (N.lor ModeDevice (N.lor ModeCharDevice ModeIrregular))))).

Record FileInfo : Type := { Mode : FileMode }.

Definition IsRegular (m : FileMode) : bool := N.eqb (N.land m ModeType) 0.
Definition IsDir (i : FileInfo) : bool := negb (N.eqb (N.land (Mode i) ModeDir) 0).

(** The operations of [system.System] (with [system.WriteFile], which
    the applier calls as one operation) as transitions of the world. *)
Record System (W : Type) : Type := {
  Lstat : string -> W -> result FileInfo * W;
  Mkdir : string -> FileMode -> W -> goerror * W;
  Symlink : string -> string -> W -> goerror * W;
  Readlink : string -> W -> result string * W;
  Remove : string -> W -> goerror * W;
  WriteFile : string -> string -> FileMode -> W -> goerror * W;
  Run : Cmd -> W -> (string * goerror) * W
}.
Arguments Lstat {W} _ _ _.
Arguments Mkdir {W} _ _ _ _.
Arguments Symlink {W} _ _ _ _.
Arguments Readlink {W} _ _ _.
Arguments Remove {W} _ _ _.
Arguments WriteFile {W} _ _ _ _ _.
Arguments Run {W} _ _ _.

(** One entry of the trace of [System] calls. *)
Inductive Call : Type :=
| CallLstat (path : string)
| CallMkdir (path : string) (mode : FileMode)
| CallSymlink (oldname newname : string)
| CallReadlink (path : string)
| CallRemove (path : string)
| CallWriteFile (path content : string) (mode : FileMode)
| CallRun (cmd : Cmd).

End system.

(** ** Package [depgraph]: the dependency graph

    Package [internal/depgraph] is imported by [execlib.go] but its source
    is not part of this development; the applier calls [New], [Done],
    [Ready], [Resource], [Mark] and [MarkFailure] and nothing else.  All
    definitions of this module are modelled from section 4.1 of the
    specification.  A node handle is the ID of its resource. *)
Module depgraph.
Import catalog.

(** Modelled from the spec: the status of a graph node (section 3).  The
    status [ready] of the specification is not stored: a node is ready iff
    it is pending and all its dependencies are done, see [isReady]. *)
Inductive Status : Type := pending | done | failed | skipped.

(** Modelled from the spec: a graph node of [internal/depgraph], a
    resource and its status (section 3). *)
Record node : Type := { res : Resource; status : Status }.

(** Modelled from the spec: the graph type of [internal/depgraph]; a
    graph owns one node per resource of the catalog. *)
Definition Graph : Type := list node.

Definition nodeID (n : node) : N := ID (res n).
Definition deps (n : node) : list N := Dependencies (res n).

Definition isPending (n : node) : bool :=
  match status n with pending => true | _ => false end.

Definition isDone (n : node) : bool :=
  match status n with done => true | _ => false end.

Definition terminal (s : Status) : bool :=
  match s with pending => false | _ => true end.

(** Modelled from the spec: the index of [internal/depgraph] from an ID
    to its node (section 4.1, "index resources by ID"). *)
Definition lookup (g : Graph) (id : N) : option node :=
  find (fun n => N.eqb (nodeID n) id) g.

Definition depDone (g : Graph) (d : N) : bool :=
  match lookup g d with Some m => isDone m | None => false end.

(** Modelled from the spec: the ready nodes of [internal/depgraph];
    pending, with all dependencies done (section 3). *)
Definition isReady (g : Graph) (n : node) : bool :=
  isPending n && forallb (depDone g) (deps n).

Fixpoint insert (x : N) (l : list N) : list N :=
  match l with
  | [] => [x]
  | y :: l' => if (x <=? y)%N then x :: l else y :: insert x l'
  end.

(** Ascending order of IDs. *)
Definition sortIDs (l : list N) : list N := fold_right insert [] l.

(** Modelled from the spec: [Graph.Done] of [internal/depgraph]; true iff
    every node has a terminal status. *)
Definition Done (g : Graph) : bool := forallb (fun n => terminal (status n)) g.

(** Modelled from the spec: [Graph.Ready] of [internal/depgraph]; all
    pending nodes whose dependencies are all done, by ascending ID. *)
Definition Ready (g : Graph) : list N := sortIDs (map nodeID (filter (isReady g) g)).

Definition zeroResource : Resource :=
  {| ID := 0; Comment := Ok EmptyString; Dependencies := []; Body := Resource_Which_noop |}.

(** Modelled from the spec: [Graph.Resource] of [internal/depgraph]; the
    resource behind a handle. *)
Definition Resource (g : Graph) (id : N) : catalog.Resource :=
  match lookup g id with Some n => res n | None => zeroResource end.

Definition setStatus (s : Status) (n : node) : node := {| res := res n; status := s |}.

Definition markNode (id : N) (n : node) : node :=
  if N.eqb (nodeID n) id then setStatus done n else n.

(** Modelled from the spec: [Graph.Mark] of [internal/depgraph]; sets the
    status of the node to done. *)
Definition Mark (g : Graph) (id : N) : Graph := map (markNode id) g.

(** Modelled from the spec: the descendants of a node in
    [internal/depgraph] (section 4.1).  [dependsOn fuel g a id]: a
    dependency path of at most [fuel] edges leads from [a] to [id], so
    that [a] is a descendant of [id]. *)
Fixpoint dependsOn (fuel : nat) (g : Graph) (a id : N) : bool :=
  match fuel with
  | O => false
  | S k =>
      match lookup g a with
      | None => false
      | Some n => existsb (fun d => N.eqb d id || dependsOn k g d id) (deps n)
      end
  end.

Definition toSkip (g : Graph) (id : N) (n : node) : bool :=
  isPending n && negb (N.eqb (nodeID n) id) && dependsOn (List.length g) g (nodeID n) id.

Definition failNode (g : Graph) (id : N) (n : node) : node :=
  if N.eqb (nodeID n) id then setStatus failed n
  else if toSkip g id n then setStatus skipped n else n.

(** Modelled from the spec: [Graph.MarkFailure] of [internal/depgraph];
    sets the node to failed, marks every pending descendant as skipped and
    returns the freshly skipped handles by ascending ID. *)
Definition MarkFailure (g : Graph) (id : N) : list N * Graph :=
  (sortIDs (map nodeID (filter (toSkip g id) g)), map (failNode g id) g).

Fixpoint findDuplicate (seen : list N) (rs : list catalog.Resource) : option N :=
  match rs with
  | [] => None
  | r :: rest =>
      if existsb (N.eqb (ID r)) seen then Some (ID r)
      else findDuplicate (ID r :: seen) rest
  end.

Definition hasID (rs : list catalog.Resource) (id : N) : bool :=
  existsb (fun r => N.eqb (ID r) id) rs.

Fixpoint findMissing (all rs : list catalog.Resource) : option (N * N) :=
  match rs with
  | [] => None
  | r :: rest =>
      match find (fun d => negb (hasID all d)) (Dependencies r) with
      | Some d => Some (ID r, d)
      | None => findMissing all rest
      end
  end.

(** Modelled from the spec: the cycle check of [internal/depgraph]
    (section 4.1).  [grounded fuel g id]: every dependency chain from [id]
    ends within [fuel] nodes, all of them in the graph.  A node on a cycle
    is grounded for no [fuel]; in a graph without cycles no chain is
    longer than the number of nodes. *)
Fixpoint grounded (fuel : nat) (g : Graph) (id : N) : bool :=
  match fuel with
  | O => false
  | S k =>
      match lookup g id with
      | None => false
      | Some n => forallb (grounded k g) (deps n)
      end
  end.

(** Modelled from the spec: [depgraph.New] of [internal/depgraph]; rejects
    a zero ID, a duplicate ID, a dependency on an ID that is not in the
    catalog and a dependency cycle (a depth-first descent bounded by the
    number of nodes), and otherwise yields a graph of pending nodes. *)
Definition New (rs : list catalog.Resource) : result Graph :=
  if existsb (fun r => N.eqb (ID r) 0) rs then Err (ConstructionError ZeroID)
  else
    match findDuplicate [] rs with
    | Some id => Err (ConstructionError (DuplicateID id))
    | None =>
        match findMissing rs rs with
        | Some (a, b) => Err (ConstructionError (MissingDep a b))
        | None =>
            let g := map (fun r => {| res := r; status := pending |}) rs in
            match filter (fun n => negb (grounded (List.length g) g (nodeID n))) g with
            | [] => Ok g
            | bad => Err (ConstructionError (Cycle (sortIDs (map nodeID bad))))
            end
        end
    end.

(** *** The invariant of a graph during a run *)

Fixpoint nodupIDs (l : list N) : bool :=
  match l with
  | [] => true
  | x :: l' => negb (existsb (N.eqb x) l') && nodupIDs l'
  end.

Definition depLive (g : Graph) (d : N) : bool :=
  match lookup g d with
  | Some m => isPending m || isDone m
  | None => false
  end.

(** No pending node waits for a failed or skipped one. *)
Definition closed (g : Graph) : bool :=
  forallb (fun n => negb (isPending n) || forallb (depLive g) (deps n)) g.

Definition wellFormed (g : Graph) : bool :=
  nodupIDs (map nodeID g)
  && forallb (fun n => grounded (List.length g) g (nodeID n)) g
  && closed g.

Definition pendingCount (g : Graph) : nat := List.length (filter isPending g).

End depgraph.

(** ** Package [luacat]: the IDs of resources ([luacat/lib.c++]) *)
Module luacat.

Definition idHashPrefix : string := "mcm-luacat ID: ".

(** [hash[i]], a [uint8_t] of the digest. *)
Definition hashByte (hash : list Byte.byte) (i : nat) : N :=
  Byte.to_N (nth i hash Byte.x00).

Section IdHash.

(** The digest that [SHA1_Init], the two [SHA1_Update] and [SHA1_Final]
    of OpenSSL leave in [hash]: the SHA-1 of the bytes given. *)
Variable SHA1 : string -> list Byte.byte.

(** [idHash] (lines 51-66).  Each operand is a byte shifted by at most 56
    bits, so nothing is lost in the 64-bit word the C code computes
    in. *)
Definition idHash (s : string) : N :=
  let hash := SHA1 (idHashPrefix ++ s)%string in
  N.lor (N.lor (N.lor (N.lor (N.lor (N.lor (N.lor (N.lor
    1
    (hashByte hash 0))
    (N.shiftl (hashByte hash 1) 8))
    (N.shiftl (hashByte hash 2) 16))
    (N.shiftl (hashByte hash 3) 24))
    (N.shiftl (hashByte hash 4) 32))
    (N.shiftl (hashByte hash 5) 40))
    (N.shiftl (hashByte hash 6) 48))
    (N.shiftl (hashByte hash 7) 56).

End IdHash.

End luacat.

(** ** Package [execlib] *)
Module execlib.
Import catalog.

(** *** The error helpers

    [execlib.go] calls [errorf], [toError], [errorWithResource] and
    [errorWithOutput] of [errors.go], whose source is not part of this
    development.  [errorf] is the constructor [Errorf]. *)

(** Modelled from the spec: [toError] of [errors.go]; section 4.5 wraps
    every error into an [Error] with an optional resource, a cause and an
    optional output. *)
Definition toError (e : error) : error :=
  match e with
  | mkError _ _ _ => e
  | _ => mkError None e None
  end.

(** Modelled from the spec: [errorWithResource] of [errors.go]; attaches
    the identity of the resource (section 4.5); [nil] stays [nil], as line
    68 of [execlib.go] requires. *)
Definition errorWithResource (r : Resource) (err : goerror) : goerror :=
  match err with
  | None => None
  | Some e =>
      match toError e with
      | mkError _ cause out =>
          Some (mkError (Some {| refID := ID r; refComment := orZero EmptyString (Comment r) |})
                        cause out)
      | e' => Some e'
      end
  end.

(** Modelled from the spec: [errorWithOutput] of [errors.go]; attaches the
    captured output of a command (section 4.5). *)
Definition errorWithOutput (out : string) (err : goerror) : goerror :=
  match err with
  | None => None
  | Some e =>
      match toError e with
      | mkError r cause _ => Some (mkError r cause (Some out))
      | e' => Some e'
      end
  end.

Definition errorOutput (err : goerror) : option string :=
  match err with
  | Some (mkError _ _ out) => out
  | _ => None
  end.

Definition formatResource (r : Resource) : string :=
  let c := orZero EmptyString (Comment r) in
  if String.eqb c EmptyString then ("id=" ++ decimal (ID r))%string
  else (c ++ " (id=" ++ decimal (ID r) ++ ")")%string.

(** *** Command construction *)
Section BuildCommand.

(** [system.LocalRoot], a constant of package [system]. *)
Variable LocalRoot : string.

(** The loop filling [argv] (lines 264-270). *)
Fixpoint readArgv (i : N) (argList : list (result string)) : result (list string) :=
  match argList with
  | [] => Ok []
  | a :: rest =>
      match a with
      | Err e => Err (Errorf "argv[%d]: %v" [argInt i; argError e])
      | Ok s =>
          match readArgv (N.succ i) rest with
          | Ok argv => Ok (s :: argv)
          | Err e => Err e
          end
      end
  end.

(** The loop filling [c.Env] (lines 284-298). *)
Fixpoint readEnv (i : N) (env : list EnvVar) : result (list string) :=
  match env with
  | [] => Ok []
  | ei :: rest =>
      match NameBytes ei with
      | Err e => Err (Errorf "getting environment[%d]: %v" [argInt i; argError e])
      | Ok k =>
          if (String.length k =? 0)%nat
          then Err (Errorf "environment[%d] missing name" [argInt i])
          else
            let v := orZero EmptyString (ValueBytes ei) in
            match readEnv (N.succ i) rest with
            | Ok l => Ok ((k ++ "=" ++ v)%string :: l)
            | Err e => Err e
            end
      end
  end.

Definition buildCommand (cmd : Exec_Command) : result system.Cmd :=
  match Command_Which cmd with
  | Exec_Command_Which_argv a =>
      let argList := orZero [] a in
      if (List.length argList =? 0)%nat then Err (Errorf "0-length argv" [])
      else
        match readArgv 0 argList with
        | Err e => Err e
        | Ok argv =>
            let argv0 := hd EmptyString argv in
            if negb (IsAbs argv0)
            then Err (Errorf "argv[0] (%q) is not an absolute path" [argString argv0])
            else
              match readEnv 0 (orZero [] (Environment cmd)) with
              | Err e => Err e
              | Ok env =>
                  let dir := orZero EmptyString (WorkingDirectory cmd) in
                  if String.eqb dir EmptyString
                  then Ok {| system.Path := argv0; system.Args := argv;
                             system.Env := env; system.Dir := LocalRoot |}
                  else if negb (IsAbs dir)
                  then Err (Errorf "working directory %q is not absolute" [argString dir])
                  else Ok {| system.Path := argv0; system.Args := argv;
                             system.Env := env; system.Dir := dir |}
              end
        end
  | Exec_Command_Which_other tag =>
      Err (Errorf "unsupported command type %v" [argTag tag])
  end.

End BuildCommand.

(** *** The host and the monad of the executors *)

(** What an executor can change: the world behind [System], and (as a
    ghost trace) the list of the [System] calls made so far. *)
Record Host (W : Type) : Type := { world : W; calls : list system.Call }.
Arguments world {W} _.
Arguments calls {W} _.

Definition M (W A : Type) : Type := Host W -> A * Host W.

Definition ret {W A : Type} (a : A) : M W A := fun h => (a, h).

Definition bind {W A B : Type} (m : M W A) (k : A -> M W B) : M W B :=
  fun h => let (a, h') := m h in k a h'.

Notation "x <- m ;; k" := (bind m (fun x => k))
  (at level 61, m at next level, right associativity).

Record Logger (W : Type) : Type := {
  Infof : string -> W -> W;
  Error : error -> W -> W
}.
Arguments Infof {W} _ _ _.
Arguments Error {W} _ _ _.

(** [context.Context]: [Err w] is [ctx.Err()] in world [w]; by the
    contract of package [context] the channel [ctx.Done()] is closed
    exactly when [ctx.Err()] is not [nil]. *)
Record Context (W : Type) : Type := { Err_ : W -> option ctxerr }.
Arguments Err_ {W} _ _.

Record Applier (W : Type) : Type := {
  System : system.System W;
  Log : Logger W
}.
Arguments System {W} _.
Arguments Log {W} _.

Inductive LogEvent : Type :=
| LogInfo (msg : string)
| LogError (e : error).

(** The state of a run of the driver: the host, the log lines written and
    (as a ghost trace) the handle and the result of every call of
    [applyResource]. *)
Record Run (W : Type) : Type := {
  host : Host W;
  logs : list LogEvent;
  applied : list (N * goerror)
}.
Arguments host {W} _.
Arguments logs {W} _.
Arguments applied {W} _.

Section Applier.

Context {W : Type}.
Variable app : Applier W.
Variable ctx : Context W.
Variable LocalRoot : string.

(** **** Calls of [app.System], each one recorded in the trace *)

Definition call {A : Type} (c : system.Call) (op : W -> A * W) : M W A :=
  fun h => let (a, w) := op (world h) in
           (a, {| world := w; calls := calls h ++ [c] |}).

Definition Lstat (path : string) : M W (result system.FileInfo) :=
  call (system.CallLstat path) (system.Lstat (System app) path).

Definition Mkdir (path : string) (mode : system.FileMode) : M W goerror :=
  call (system.CallMkdir path mode) (system.Mkdir (System app) path mode).

Definition Symlink (oldname newname : string) : M W goerror :=
  call (system.CallSymlink oldname newname) (system.Symlink (System app) oldname newname).

Definition Readlink (path : string) : M W (result string) :=
  call (system.CallReadlink path) (system.Readlink (System app) path).

Definition Remove (path : string) : M W goerror :=
  call (system.CallRemove path) (system.Remove (System app) path).

Definition WriteFile (path content : string) (mode : system.FileMode) : M W goerror :=
  call (system.CallWriteFile path content mode)
       (system.WriteFile (System app) path content mode).

Definition Run_ (cmd : system.Cmd) : M W (string * goerror) :=
  call (system.CallRun cmd) (system.Run (System app) cmd).

(** **** [applyFile] *)

Definition applyFile (f : File) : M W goerror :=
  match Path f with
  | Err err => ret (Some (Errorf "read file path from catalog: %v" [argError err]))
  | Ok path =>
      if String.eqb path EmptyString then ret (Some (errorString "file path is empty"))
      else
        match Which f with
        | File_Which_plain (Some c) =>
            match c with
            | Err err => ret (Some (Errorf "read content from catalog: %v" [argError err]))
            | Ok content => WriteFile path content 438%N (* 0666 *)
            end
        | File_Which_plain None =>
            r <- Lstat path ;;
            match r with
            | Err err => ret (Some err)
            | Ok info =>
                if negb (system.IsRegular (system.Mode info))
                then ret (Some (Errorf "%s is not a regular file" []))
                else ret None
            end
        | File_Which_directory =>
            err <- Mkdir path 511%N (* 0777 *) ;;
            match err with
            | None => ret None
            | Some e =>
                if negb (IsExist e) then ret (Some e)
                else
                  r <- Lstat path ;;
                  match r with
                  | Err err' =>
                      ret (Some (Errorf "determine state of %s: %v"
                                        [argString path; argError err']))
                  | Ok info =>
                      if negb (system.IsDir info)
                      then ret (Some (Errorf "%s is not a directory" [argString path]))
                      else ret None
                  end
            end
        | File_Which_symlink t =>
            match t with
            | Err err => ret (Some (Errorf "read target from catalog: %v" [argError err]))
            | Ok target =>
                err <- Symlink target path ;;
                match err with
                | None => ret None
                | Some e =>
                    if negb (IsExist e) then ret (Some e)
                    else
                      r <- Lstat path ;;
                      match r with
                      | Err err' =>
                          ret (Some (Errorf "determine state of %s: %v"
                                            [argString path; argError err']))
                      | Ok info =>
                          if negb (N.eqb (N.land (system.Mode info) system.ModeType)
                                         system.ModeSymlink)
                          then ret (Some (Errorf "%s is not a symlink" [argString path]))
                          else
                            a <- Readlink path ;;
                            match a with
                            | Err err' => ret (Some err')
                            | Ok actual =>
                                if String.eqb actual target then ret None
                                else
                                  err1 <- Remove path ;;
                                  match err1 with
                                  | Some e1 =>
                                      ret (Some (Errorf "retargeting %s: %v"
                                                        [argString path; argError e1]))
                                  | None =>
                                      err2 <- Symlink target path ;;
                                      match err2 with
                                      | Some e2 =>
                                          ret (Some (Errorf "retargeting %s: %v"
                                                            [argString path; argError e2]))
                                      | None => ret None
                                      end
                                  end
                            end
                      end
                end
            end
        | File_Which_absent =>
            err <- Remove path ;;
            match err with
            | None => ret None
            | Some e => if negb (IsNotExist e) then ret (Some e) else ret None
            end
        | File_Which_other tag =>
            ret (Some (Errorf "unsupported file directive %v" [argTag tag]))
        end
  end.

(** **** [applyExec] *)

(** Lines 240-252: build and run the main command. *)
Definition runMain (e : Exec) : M W goerror :=
  match Command e with
  | Err err => ret (Some (Errorf "command: %v" [argError err]))
  | Ok main =>
      match buildCommand LocalRoot main with
      | Err err => ret (Some (Errorf "command: %v" [argError err]))
      | Ok cmd =>
          r <- Run_ cmd ;;
          match snd r with
          | Some err => ret (errorWithOutput (fst r) (Some (Errorf "command: %v" [argError err])))
          | None => ret None
          end
      end
  end.

Definition applyExec (e : Exec) : M W goerror :=
  match Condition e with
  | Exec_condition_Which_always => runMain e
  | Exec_condition_Which_onlyIf c =>
      match c with
      | Err err => ret (Some (Errorf "condition: %v" [argError err]))
      | Ok cond =>
          match buildCommand LocalRoot cond with
          | Err err => ret (Some (Errorf "condition: %v" [argError err]))
          | Ok cmd =>
              r <- Run_ cmd ;;
              match snd r with
              | Some err =>
                  if isExitError err then ret None
                  else ret (errorWithOutput (fst r)
                              (Some (Errorf "condition: %v" [argError err])))
              | None => runMain e
              end
          end
      end
  | Exec_condition_Which_unless c =>
      match c with
      | Err err => ret (Some (Errorf "condition: %v" [argError err]))
      | Ok cond =>
          match buildCommand LocalRoot cond with
          | Err err => ret (Some (Errorf "condition: %v" [argError err]))
          | Ok cmd =>
              r <- Run_ cmd ;;
              match snd r with
              | None => ret None
              | Some err =>
                  if negb (isExitError err)
                  then ret (errorWithOutput (fst r)
                              (Some (Errorf "condition: %v" [argError err])))
                  else runMain e
              end
          end
      end
  | Exec_condition_Which_fileAbsent p =>
      r <- Lstat (orZero EmptyString p) ;;
      match r with
      | Ok _ => ret None
      | Err err =>
          if negb (IsNotExist err) then ret (Some (Errorf "condition: %v" [argError err]))
          else runMain e
      end
  | Exec_condition_Which_other tag =>
      ret (Some (Errorf "unknown condition %v" [argTag tag]))
  end.

Definition applyResource (r : Resource) : M W goerror :=
  match Body r with
  | Resource_Which_noop => ret None
  | Resource_Which_file (Err err) => ret (Some err)
  | Resource_Which_file (Ok f) => applyFile f
  | Resource_Which_exec (Err err) => ret (Some err)
  | Resource_Which_exec (Ok e) => applyExec e
  | Resource_Which_other tag => ret (Some (Errorf "unknown type %v" [argTag tag]))
  end.

(** **** The driver *)

Definition logInfof (msg : string) (r : Run W) : Run W :=
  {| host := {| world := Infof (Log app) msg (world (host r)); calls := calls (host r) |};
     logs := logs r ++ [LogInfo msg];
     applied := applied r |}.

Definition logError (e : error) (r : Run W) : Run W :=
  {| host := {| world := Error (Log app) e (world (host r)); calls := calls (host r) |};
     logs := logs r ++ [LogError e];
     applied := applied r |}.

(** The call [app.applyResource(ctx, res)] of line 68 for the handle
    [curr]. *)
Definition runResource (curr : N) (res : Resource) (r : Run W) : goerror * Run W :=
  let (err, h) := applyResource res (host r) in
  (err, {| host := h; logs := logs r; applied := applied r ++ [(curr, err)] |}).

(** Lines 65-81: one resource is applied and the graph is marked. *)
Definition loopBody (ok : bool) (g : depgraph.Graph) (curr : N) (r : Run W)
  : bool * depgraph.Graph * Run W :=
  let res := depgraph.Resource g curr in
  let r1 := logInfof ("applying: " ++ formatResource res) r in
  let (e, r2) := runResource curr res r1 in
  match errorWithResource res e with
  | None => (ok, depgraph.Mark g curr, r2)
  | Some err =>
      let r3 := logError (toError err) r2 in
      let (skipped, g') := depgraph.MarkFailure g curr in
      let r4 :=
        if (0 <? List.length skipped)%nat
        then logInfof ("skipping due to failure of " ++ formatResource res ++ ": "
                       ++ Join (map (fun s => formatResource (depgraph.Resource g' s)) skipped)
                               ", ") r3
        else r3 in
      (false, g', r4)
  end.

(** The loop of [applyCatalog]; [None] when the fuel runs out. *)
Fixpoint applyLoop (fuel : nat) (ok : bool) (g : depgraph.Graph) (r : Run W)
  : option (goerror * depgraph.Graph * Run W) :=
  match fuel with
  | O => None
  | S k =>
      if depgraph.Done g then
        Some (if ok then None else Some (errorString "not all resources applied cleanly"), g, r)
      else
        match depgraph.Ready g with
        | [] => Some (Some (errorString "graph not done, but has nothing to do"), g, r)
        | curr :: _ =>
            match Err_ ctx (world (host r)) with
            | Some c => Some (Some (contextError c), g, r)
            | None =>
                let '(ok', g', r') := loopBody ok g curr r in
                applyLoop k ok' g' r'
            end
        end
  end.

(** Every iteration takes at least one node out of the pending ones. *)
Definition applyCatalog (g : depgraph.Graph) (r : Run W)
  : option (goerror * depgraph.Graph * Run W) :=
  applyLoop (S (depgraph.pendingCount g)) true g r.

Definition start (w : W) : Run W :=
  {| host := {| world := w; calls := [] |}; logs := []; applied := [] |}.

(** [Apply], run from the world [w]; besides the error it yields the graph
    at the end (when one was built) and the state of the run. *)
Definition Apply (c : Catalog) (w : W)
  : option (goerror * option depgraph.Graph * Run W) :=
  let res := orZero [] (Resources c) in
  match depgraph.New res with
  | Err err => Some (Some (toError err), None, start w)
  | Ok g =>
      match applyCatalog g (start w) with
      | None => None
      | Some (Some err, g', r) => Some (Some (toError err), Some g', r)
      | Some (None, g', r) => Some (None, Some g', r)
      end
  end.

End Applier.

(** *** The link between the graph and the trace of a run

    [consistent g ok r]: the IDs of [g] are unique; every entry of the
    trace [applied r] belongs to a node that is done (for a [nil] result)
    or failed (for an error), and every done or failed node has such an
    entry; [ok] is still true iff no entry carries an error. *)
Definition consistent {W : Type} (g : depgraph.Graph) (ok : bool) (r : Run W) : Prop :=
  NoDup (map depgraph.nodeID g) /\
  (forall id e, In (id, e) (applied r) ->
     exists n, In n g /\ depgraph.nodeID n = id /\
               depgraph.status n = match e with
                                   | None => depgraph.done
                                   | Some _ => depgraph.failed
                                   end) /\
  (forall n, In n g -> depgraph.status n = depgraph.done ->
     In (depgraph.nodeID n, None) (applied r)) /\
  (forall n, In n g -> depgraph.status n = depgraph.failed ->
     exists e, In (depgraph.nodeID n, Some e) (applied r)) /\
  (ok = true -> forall n, In n g ->
     depgraph.status n = depgraph.pending \/ depgraph.status n = depgraph.done) /\
  (ok = false -> exists id e, In (id, Some e) (applied r)).

(** The two summary errors of [applyCatalog]. *)
Definition notClean : error := errorString "not all resources applied cleanly".
Definition nothingToDo : error := errorString "graph not done, but has nothing to do".

(** How the loop of [applyCatalog] can end: with [nil], with the summary
    error, with the internal error, or with the error of the context. *)
Definition ending {W : Type} (ctx : Context W)
  (err : goerror) (ok : bool) (g : depgraph.Graph) (r : Run W) : Prop :=
  (err = None /\ ok = true /\ depgraph.Done g = true) \/
  (err = Some notClean /\ ok = false /\ depgraph.Done g = true) \/
  (err = Some nothingToDo /\ depgraph.Done g = false) \/
  (exists c, err = Some (contextError c) /\ depgraph.Done g = false /\
             Err_ ctx (world (host r)) = Some c).

(** *** A scripted host

    A [System], a [Logger] and a [Context] over a world that holds the
    replies still to be given; they stand for the host in the concrete
    runs below.  Every call of the [System] or of the [Logger] is one
    tick, and the context is cancelled from the tick [cancelAt] on. *)

Inductive Reply : Type :=
| ReplyErr (e : goerror)
| ReplyInfo (i : result system.FileInfo)
| ReplyLink (l : result string)
| ReplyRun (out : string) (e : goerror).

Record Script : Type := {
  replies : list Reply;
  ticks : nat;
  cancelAt : option nat
}.

Definition pop (w : Script) : option Reply * Script :=
  match replies w with
  | [] => (None, {| replies := []; ticks := S (ticks w); cancelAt := cancelAt w |})
  | r :: rest => (Some r, {| replies := rest; ticks := S (ticks w); cancelAt := cancelAt w |})
  end.

Definition popErr (w : Script) : goerror * Script :=
  let (r, w') := pop w in
  (match r with Some (ReplyErr e) => e | _ => None end, w').

Definition popInfo (w : Script) : result system.FileInfo * Script :=
  let (r, w') := pop w in
  (match r with Some (ReplyInfo i) => i | _ => Ok {| system.Mode := 0%N |} end, w').

Definition popLink (w : Script) : result string * Script :=
  let (r, w') := pop w in
  (match r with Some (ReplyLink l) => l | _ => Ok EmptyString end, w').

Definition popRun (w : Script) : (string * goerror) * Script :=
  let (r, w') := pop w in
  (match r with Some (ReplyRun out e) => (out, e) | _ => (EmptyString, None) end, w').

Definition scriptedSystem : system.System Script :=
  {| system.Lstat := fun _ => popInfo;
     system.Mkdir := fun _ _ => popErr;
     system.Symlink := fun _ _ => popErr;
     system.Readlink := fun _ => popLink;
     system.Remove := fun _ => popErr;
     system.WriteFile := fun _ _ _ => popErr;
     system.Run := fun _ => popRun |}.

Definition tick (w : Script) : Script :=
  {| replies := replies w; ticks := S (ticks w); cancelAt := cancelAt w |}.

Definition scriptedLogger : Logger Script :=
  {| Infof := fun _ => tick; Error := fun _ => tick |}.

Definition scriptedContext : Context Script :=
  {| Err_ := fun w =>
       match cancelAt w with
       | Some t => if (t <=? ticks w)%nat then Some Canceled else None
       | None => None
       end |}.

Definition scripted : Applier Script :=
  {| System := scriptedSystem; Log := scriptedLogger |}.

Definition script (l : list Reply) : Script :=
  {| replies := l; ticks := 0; cancelAt := None |}.

Definition onHost (w : Script) : Host Script := {| world := w; calls := [] |}.

(** Resources and commands of the concrete runs. *)
Definition argvCommand (argv : list string) (env : list (string * string)) (dir : string)
  : Exec_Command :=
  {| Command_Which := Exec_Command_Which_argv (Ok (map Ok argv));
     Environment := Ok (map (fun kv => {| NameBytes := Ok (fst kv);
                                          ValueBytes := Ok (snd kv) |}) env);
     WorkingDirectory := Ok dir |}.

Definition noopResource (id : N) (deps : list N) : Resource :=
  {| ID := id; Comment := Ok EmptyString; Dependencies := deps;
     Body := Resource_Which_noop |}.

Definition fileResource (id : N) (deps : list N) (path : string) (w : File_Which) : Resource :=
  {| ID := id; Comment := Ok EmptyString; Dependencies := deps;
     Body := Resource_Which_file (Ok {| Path := Ok path; Which := w |}) |}.

Definition execResource (id : N) (deps : list N) (main : Exec_Command) (c : Exec_condition)
  : Resource :=
  {| ID := id; Comment := Ok EmptyString; Dependencies := deps;
     Body := Resource_Which_exec (Ok {| Command := Ok main; Condition := c |}) |}.

Definition echoCommand : Exec_Command :=
  argvCommand ["/bin/echo"; "hi"]%string [("A", "1"); ("B", "")]%string EmptyString.

Definition echoCmd : system.Cmd :=
  {| system.Path := "/bin/echo"; system.Args := ["/bin/echo"; "hi"]%string;
     system.Env := ["A=1"; "B="]%string; system.Dir := "/" |}.

Definition catalogOf (rs : list Resource) : Catalog := {| Resources := Ok rs |}.

(** The pair [name=value] that [buildCommand] makes of an entry of the
    environment. *)
Definition envPair (ei : EnvVar) : string :=
  (orZero EmptyString (NameBytes ei) ++ "=" ++ orZero EmptyString (ValueBytes ei))%string.

(** Modelled from the spec: the error kind [State] of section 7 (the
    observed filesystem entity differs in kind from the declared intent);
    the code has no error kinds, the errors of [applyFile] that say so are
    the three "is not a ..." ones. *)
Definition isStateError (e : error) : bool :=
  match e with
  | Errorf f _ =>
      String.eqb f "%s is not a regular file"
      || String.eqb f "%s is not a directory"
      || String.eqb f "%s is not a symlink"
  | _ => false
  end.

(** The text an [errorf] error starts with: the format up to its first
    verb. *)
Definition startsWith (p : string) (err : goerror) : bool :=
  match err with
  | Some (Errorf f _) => String.prefix p f
  | _ => false
  end.

(** *** The scenarios of section 8 of the specification *)

Definition pendingGraph (rs : list Resource) : depgraph.Graph :=
  map (fun r => {| depgraph.res := r; depgraph.status := depgraph.pending |}) rs.

(** Scenario 6: five resources, the context cancelled once the first one
    has been applied. *)
Definition fiveResources : list Resource :=
  [noopResource 1 []; noopResource 2 []; noopResource 3 []; noopResource 4 [];
   noopResource 5 []].

Definition cancelAfterFirst : Script := {| replies := []; ticks := 0; cancelAt := Some 1 |}.

(** A context that is cancelled from the start. *)
Definition cancelledAtStart : Script := {| replies := []; ticks := 0; cancelAt := Some 0 |}.

(** A graph that is not done and has nothing ready: the only node waits
    for an ID that is not in the graph. *)
Definition stuckGraph : depgraph.Graph := pendingGraph [noopResource 1 [7%N]].

(** Scenario 2: the write of the first resource is refused. *)
Definition permissionDenied : error :=
  osError ErrPermission "open /root/forbidden: permission denied".

Definition skipResources : list Resource :=
  [fileResource 1 [] "/root/forbidden" (File_Which_plain (Some (Ok "x"%string)));
   execResource 2 [1%N] echoCommand Exec_condition_Which_always;
   noopResource 3 [2%N]].

(** Scenario 3: [unless = /bin/true], [main = /bin/false]. *)
Definition trueCommand : Exec_Command := argvCommand ["/bin/true"%string] [] EmptyString.
Definition falseCommand : Exec_Command := argvCommand ["/bin/false"%string] [] EmptyString.

Definition cmdOf (path : string) : system.Cmd :=
  {| system.Path := path; system.Args := [path]; system.Env := []; system.Dir := "/" |}.

Definition unlessExec : Exec :=
  {| Command := Ok falseCommand; Condition := Exec_condition_Which_unless (Ok trueCommand) |}.

Definition unlessResource : Resource :=
  execResource 1 [] falseCommand (Exec_condition_Which_unless (Ok trueCommand)).

Definition onlyIfExec : Exec :=
  {| Command := Ok trueCommand; Condition := Exec_condition_Which_onlyIf (Ok falseCommand) |}.

(** Scenario 4: [/tmp/link] is a symlink to [/old], the resource asks for
    [/new]. *)
Definition linkFile : File :=
  {| Path := Ok "/tmp/link"%string; Which := File_Which_symlink (Ok "/new"%string) |}.

Definition fileExists : error := osError ErrExist "symlink /new /tmp/link: file exists".

Definition linkExists : Script :=
  script [ReplyErr (Some fileExists);
          ReplyInfo (Ok {| system.Mode := system.ModeSymlink |});
          ReplyLink (Ok "/old"%string);
          ReplyErr None;
          ReplyErr None].

(** A plain file without content at a path that does not exist. *)
Definition plainFile : File :=
  {| Path := Ok "/tmp/a"%string; Which := File_Which_plain None |}.

Definition noSuchFile : error := osError ErrNotExist "lstat /tmp/a: no such file or directory".

(** Two resources without dependencies; the write of the first is
    refused, the second has nothing to do. *)
Definition independentResources : list Resource :=
  [fileResource 1 [] "/root/forbidden" (File_Which_plain (Some (Ok "x"%string)));
   noopResource 4 []].

Definition independentGraph : depgraph.Graph :=
  [ {| depgraph.res := fileResource 1 [] "/root/forbidden"
                         (File_Which_plain (Some (Ok "x"%string)));
       depgraph.status := depgraph.failed |};
    {| depgraph.res := noopResource 4 []; depgraph.status := depgraph.done |} ].

Definition independentRun : Run Script :=
  {| host := {| world := {| replies := []; ticks := 4; cancelAt := None |};
                calls := [system.CallWriteFile "/root/forbidden" "x" 438%N] |};
     logs := [LogInfo "applying: id=1";
              LogError (mkError (Some {| refID := 1; refComment := EmptyString |})
                                permissionDenied None);
              LogInfo "applying: id=4"];
     applied := [(1%N, Some permissionDenied); (4%N, None)] |}.

(** A command one of whose environment entries has an empty name. *)
Definition emptyNameCommand : Exec_Command :=
  argvCommand ["/bin/echo"%string] [("A", "1"); ("", "x")]%string EmptyString.

(** A file resource with an empty path and a sub-variant that writes. *)
Definition emptyPathFile : File :=
  {| Path := Ok EmptyString; Which := File_Which_plain (Some (Ok "x"%string)) |}.

Definition echoExec : Exec :=
  {| Command := Ok echoCommand; Condition := Exec_condition_Which_always |}.

(** An entry of the environment whose name can be read and is not
    empty. *)
Definition goodName (ei : EnvVar) : Prop :=
  exists k, NameBytes ei = Ok k /\ k <> EmptyString.

(** *** What an executor does to the host *)

(** The path a [System] call acts on; [Run] acts on none. *)
Definition callPath (c : system.Call) : option string :=
  match c with
  | system.CallLstat p => Some p
  | system.CallMkdir p _ => Some p
  | system.CallSymlink _ newname => Some newname
  | system.CallReadlink p => Some p
  | system.CallRemove p => Some p
  | system.CallWriteFile p _ _ => Some p
  | system.CallRun _ => None
  end.

(** The calls by which the exec executor reaches the host: it runs
    commands and looks at a path. *)
Definition isRunOrLstat (c : system.Call) : bool :=
  match c with
  | system.CallRun _ => true
  | system.CallLstat _ => true
  | _ => false
  end.

(** [traces P k m]: from every host, the computation [m] adds at most [k]
    calls to the trace, all of them in [P], and takes none away. *)
Definition traces {W A : Type} (P : system.Call -> Prop) (k : nat) (m : M W A) : Prop :=
  forall h, exists suffix,
    calls (snd (m h)) = calls h ++ suffix /\
    Forall P suffix /\ (List.length suffix <= k)%nat.

(** A file resource with a directory body, and one with an absent body. *)
Definition dirFile : File := {| Path := Ok "/srv/www"%string; Which := File_Which_directory |}.
Definition absentFile : File := {| Path := Ok "/tmp/a"%string; Which := File_Which_absent |}.
Definition contentFile : File :=
  {| Path := Ok "/etc/motd"%string; Which := File_Which_plain (Some (Ok "hello"%string)) |}.

Definition accessDenied : error := osError ErrPermission "permission denied".
Definition dirExists : error := osError ErrExist "mkdir /srv/www: file exists".

(** An exec resource guarded by the absence of a file. *)
Definition fileAbsentExec : Exec :=
  {| Command := Ok trueCommand;
     Condition := Exec_condition_Which_fileAbsent (Ok "/var/lock/done"%string) |}.

(** A command whose [argv[0]] is not absolute. *)
Definition relativeCommand : Exec_Command := argvCommand ["echo"%string] [] EmptyString.

Definition lazyExec : Exec :=
  {| Command := Ok relativeCommand;
     Condition := Exec_condition_Which_onlyIf (Ok trueCommand) |}.

Definition badConditionExec : Exec :=
  {| Command := Ok trueCommand;
     Condition := Exec_condition_Which_unless (Ok relativeCommand) |}.

(** *** The log and the trace of a run *)

Definition isApplying (ev : LogEvent) : bool :=
  match ev with
  | LogInfo msg => String.prefix "applying: " msg
  | LogError _ => false
  end.

Definition isLogError (ev : LogEvent) : bool :=
  match ev with
  | LogInfo _ => false
  | LogError _ => true
  end.

(** The line that line 67 of [execlib.go] logs for an entry of the
    trace. *)
Definition applyingLine (g : depgraph.Graph) (x : N * goerror) : LogEvent :=
  LogInfo ("applying: " ++ formatResource (depgraph.Resource g (fst x))).

(** What line 72 logs for an entry of the trace: the error of a failed
    resource, wrapped with its identity; nothing for a success. *)
Definition errorLine (g : depgraph.Graph) (x : N * goerror) : list LogEvent :=
  match errorWithResource (depgraph.Resource g (fst x)) (snd x) with
  | Some err => [LogError (toError err)]
  | None => []
  end.

(** [reaches rs a id]: in the catalog [rs], a chain of dependencies leads
    from the resource with ID [a] to the ID [id]. *)
Inductive reaches (rs : list Resource) : N -> N -> Prop :=
| reaches_dep (x : Resource) (d : N) :
    In x rs -> In d (Dependencies x) -> reaches rs (ID x) d
| reaches_via (x : Resource) (d id : N) :
    In x rs -> In d (Dependencies x) -> reaches rs d id -> reaches rs (ID x) id.

(** What holds of a run besides [consistent]: no handle is applied twice,
    a handle is applied after its dependencies have succeeded, and the
    log holds one "applying" line per entry of the trace and one error
    per failure, in the order of the trace. *)
Definition orderly {W : Type} (g : depgraph.Graph) (r : Run W) : Prop :=
  NoDup (map fst (applied r)) /\
  (forall l1 id e l2 d, applied r = l1 ++ (id, e) :: l2 ->
     In d (Dependencies (depgraph.Resource g id)) -> In (d, None) l1) /\
  filter isApplying (logs r) = map (applyingLine g) (applied r) /\
  filter isLogError (logs r) = flat_map (errorLine g) (applied r).

(** Scenario: a diamond of four resources, the second of which fails. *)
Definition diamondResources : list Resource :=
  [noopResource 4 [2; 3]%N;
   fileResource 2 [1%N] "/etc/motd" (File_Which_plain (Some (Ok "hello"%string)));
   noopResource 3 [1%N];
   noopResource 1 []].

Definition diamondWorld : Script := script [ReplyErr (Some accessDenied)].

(** The graph and the state of the run in which [Apply] leaves the
    diamond. *)
Definition diamondGraph : depgraph.Graph :=
  [ {| depgraph.res := noopResource 4 [2; 3]%N; depgraph.status := depgraph.skipped |};
    {| depgraph.res := fileResource 2 [1%N] "/etc/motd"
                         (File_Which_plain (Some (Ok "hello"%string)));
       depgraph.status := depgraph.failed |};
    {| depgraph.res := noopResource 3 [1%N]; depgraph.status := depgraph.done |};
    {| depgraph.res := noopResource 1 []; depgraph.status := depgraph.done |} ].

Definition diamondRun : Run Script :=
  {| host := {| world := {| replies := []; ticks := 6; cancelAt := None |};
                calls := [system.CallWriteFile "/etc/motd" "hello" 438%N] |};
     logs := [LogInfo "applying: id=1"; LogInfo "applying: id=2";
              LogError (mkError (Some {| refID := 2; refComment := EmptyString |})
                                accessDenied None);
              LogInfo "skipping due to failure of id=2: id=4";
              LogInfo "applying: id=3"];
     applied := [(1%N, None); (2%N, Some accessDenied); (3%N, None)] |}.

(** Three resources without a body to apply. *)
Definition noopResources : list Resource :=
  [noopResource 3 [1; 2]%N; noopResource 2 []; noopResource 1 []].

Definition noopRun : Run Script :=
  {| host := {| world := {| replies := []; ticks := 3; cancelAt := None |}; calls := [] |};
     logs := [LogInfo "applying: id=1"; LogInfo "applying: id=2"; LogInfo "applying: id=3"];
     applied := [(1%N, None); (2%N, None); (3%N, None)] |}.

(** A file resource whose sub-variant is not known. *)
Definition unknownFile : File :=
  {| Path := Ok "/tmp/a"%string; Which := File_Which_other 9 |}.

Definition boom : error := ExitError "exit status 3".

(** ** Command construction: the descriptor *)

Section BuildCommandTheory.

Variable LocalRoot : string.

Lemma readArgv_Ok (l : list (result string)) : forall i argv,
  readArgv i l = Ok argv -> l = map Ok argv.
Proof.
  induction l as [|a l IH]; intros i argv H; simpl in H.
  - injection H as <-. reflexivity.
  - destruct a as [s|e]; [|discriminate].
    destruct (readArgv (N.succ i) l) as [argv'|e] eqn:E; [|discriminate].
    injection H as <-. simpl. f_equal. eapply IH; eassumption.
Qed.

Lemma readEnv_Ok (env : list EnvVar) : forall i l,
  readEnv i env = Ok l ->
  l = map envPair env /\
  forall ei, In ei env -> exists k, NameBytes ei = Ok k /\ k <> EmptyString.
Proof.
  induction env as [|ei env IH]; intros i l H; simpl in H.
  - injection H as <-. split; [reflexivity | intros ei []].
  - destruct (NameBytes ei) as [k|e] eqn:Ek; [|discriminate].
    destruct (String.length k =? 0)%nat eqn:Len; [discriminate|].
    destruct (readEnv (N.succ i) env) as [l'|e] eqn:E; [|discriminate].
    injection H as <-. destruct (IH _ _ E) as [-> Hn]. split.
    + change (map envPair (ei :: env)) with (envPair ei :: map envPair env).
      f_equal. unfold envPair. rewrite Ek. reflexivity.
    + intros ej [<-|Hin]; [|auto].
      exists k. split; [assumption|]. intros ->. discriminate.
Qed.

Lemma readEnv_empty_name (env : list EnvVar) : forall i,
  (exists ei, In ei env /\ NameBytes ei = Ok EmptyString) ->
  exists f a, readEnv i env = Err (Errorf f a).
Proof.
  induction env as [|ej env IH]; intros i [ei [Hin Hn]]; [destruct Hin|].
  simpl. destruct (NameBytes ej) as [k|e] eqn:Ek; [|eauto].
  destruct (String.length k =? 0)%nat eqn:Len; [eauto|].
  destruct Hin as [->|Hin].
  - rewrite Hn in Ek. injection Ek as <-. discriminate.
  - destruct (IH (N.succ i)) as [f [a ->]]; eauto.
Qed.

Lemma readArgv_Err (l : list (result string)) : forall i e,
  readArgv i l = Err e -> exists f a, e = Errorf f a.
Proof.
  induction l as [|x l IH]; intros i e H; simpl in H; [discriminate|].
  destruct x as [s|e']; [|injection H as <-; eauto].
  destruct (readArgv (N.succ i) l) eqn:E; [discriminate|].
  injection H as <-. eauto.
Qed.

Lemma readEnv_Err (env : list EnvVar) : forall i e,
  readEnv i env = Err e -> exists f a, e = Errorf f a.
Proof.
  induction env as [|x l IH]; intros i e H; simpl in H; [discriminate|].
  destruct (NameBytes x); [|injection H as <-; eauto].
  destruct (String.length a =? 0)%nat; [injection H as <-; eauto|].
  destruct (readEnv (N.succ i) l) eqn:E; [discriminate|].
  injection H as <-. eauto.
Qed.

(** Every error of [buildCommand] is built by [errorf]. *)
Lemma buildCommand_Err (cmd : Exec_Command) (e : error) :
  buildCommand LocalRoot cmd = Err e -> exists f a, e = Errorf f a.
Proof.
  unfold buildCommand. intros H.
  destruct (Command_Which cmd) as [a|tag]; [|injection H as <-; eauto].
  destruct (List.length (orZero [] a) =? 0)%nat; [injection H as <-; eauto|].
  destruct (readArgv 0 (orZero [] a)) as [argv|e'] eqn:Ea;
    [|injection H as <-; eapply readArgv_Err; eassumption].
  destruct (negb (IsAbs (hd EmptyString argv))); [injection H as <-; eauto|].
  destruct (readEnv 0 (orZero [] (Environment cmd))) as [env|e'] eqn:Ee;
    [|injection H as <-; eapply readEnv_Err; eassumption].
  destruct (String.eqb _ _); [discriminate|].
  destruct (negb (IsAbs (orZero EmptyString (WorkingDirectory cmd))));
    [injection H as <-; eauto|discriminate].
Qed.

(** What an accepted command looks like. *)
Lemma buildCommand_Ok (cmd : Exec_Command) (c : system.Cmd) :
  buildCommand LocalRoot cmd = Ok c ->
  exists a argv env,
    Command_Which cmd = Exec_Command_Which_argv a /\
    orZero [] a = map Ok argv /\ argv <> [] /\
    readEnv 0 (orZero [] (Environment cmd)) = Ok env /\
    IsAbs (hd EmptyString argv) = true /\
    c = {| system.Path := hd EmptyString argv; system.Args := argv; system.Env := env;
           system.Dir := if String.eqb (orZero EmptyString (WorkingDirectory cmd)) EmptyString
                         then LocalRoot
                         else orZero EmptyString (WorkingDirectory cmd) |}.
Proof.
  unfold buildCommand. intros H.
  destruct (Command_Which cmd) as [a|tag]; [|discriminate].
  destruct (List.length (orZero [] a) =? 0)%nat eqn:Len; [discriminate|].
  destruct (readArgv 0 (orZero [] a)) as [argv|e'] eqn:Ea; [|discriminate].
  destruct (negb (IsAbs (hd EmptyString argv))) eqn:Abs; [discriminate|].
  destruct (readEnv 0 (orZero [] (Environment cmd))) as [env|e'] eqn:Ee; [|discriminate].
  apply readArgv_Ok in Ea.
  exists a, argv, env. split; [reflexivity|]. split; [assumption|].
  split; [intros ->; rewrite Ea in Len; discriminate|].
  split; [reflexivity|]. split; [now apply negb_false_iff in Abs|].
  revert H. destruct (String.eqb _ _); [congruence|].
  destruct (negb (IsAbs (orZero EmptyString (WorkingDirectory cmd)))); congruence.
Qed.

(** C10: for every command that [buildCommand] accepts, the command is an
    [argv] command whose entries all read well, and the descriptor has
    [Path = argv[0]], [Args] equal to the whole of [argv] (so that
    [Args[0] = Path]), and [Dir] equal to the working directory when that
    is not empty and to [LocalRoot] when it is. *)
Theorem buildCommand_descriptor (cmd : Exec_Command) (c : system.Cmd) :
  buildCommand LocalRoot cmd = Ok c ->
  exists a argv0 rest,
    Command_Which cmd = Exec_Command_Which_argv a /\
    orZero [] a = map Ok (argv0 :: rest) /\
    system.Path c = argv0 /\
    system.Args c = argv0 :: rest /\
    hd EmptyString (system.Args c) = system.Path c /\
    (orZero EmptyString (WorkingDirectory cmd) <> EmptyString ->
     system.Dir c = orZero EmptyString (WorkingDirectory cmd)) /\
    (orZero EmptyString (WorkingDirectory cmd) = EmptyString ->
     system.Dir c = LocalRoot).
Proof.
  intros H. apply buildCommand_Ok in H.
  destruct H as (a & argv & env & Hw & Ha & Hne & _ & _ & ->).
  destruct argv as [|argv0 rest]; [congruence|].
  exists a, argv0, rest. simpl. repeat split; try assumption.
  - intros Hd. apply String.eqb_neq in Hd. now rewrite Hd.
  - intros ->. reflexivity.
Qed.

End BuildCommandTheory.

(** A command of the catalog that [buildCommand] accepts. *)
Lemma buildCommand_descriptor_witness :
  buildCommand "/" echoCommand = Ok echoCmd /\
  exists a argv0 rest,
    Command_Which echoCommand = Exec_Command_Which_argv a /\
    orZero [] a = map Ok (argv0 :: rest) /\
    system.Path echoCmd = argv0 /\
    system.Args echoCmd = argv0 :: rest /\
    hd EmptyString (system.Args echoCmd) = system.Path echoCmd /\
    (orZero EmptyString (WorkingDirectory echoCommand) <> EmptyString ->
     system.Dir echoCmd = orZero EmptyString (WorkingDirectory echoCommand)) /\
    (orZero EmptyString (WorkingDirectory echoCommand) = EmptyString ->
     system.Dir echoCmd = "/"%string).
Proof.
  split; [reflexivity|].
  apply (buildCommand_descriptor "/" echoCommand echoCmd). reflexivity.
Defined.

(** ** The executors *)

Section ExecutorTheory.

Context {W : Type}.
Variable app : Applier W.
Variable LocalRoot : string.

Lemma call_run {A : Type} (c : system.Call) (op : W -> A * W) (h : Host W) :
  call c op h = (fst (op (world h)),
                 {| world := snd (op (world h)); calls := calls h ++ [c] |}).
Proof. unfold call. destruct (op (world h)); reflexivity. Qed.

Lemma bind_run {A B : Type} (m : M W A) (k : A -> M W B) (h : Host W) :
  bind m k h = k (fst (m h)) (snd (m h)).
Proof. unfold bind. destruct (m h); reflexivity. Qed.

Lemma bind_call {A B : Type} (c : system.Call) (op : W -> A * W) (k : A -> M W B)
  (h : Host W) (a : A) (w : W) :
  op (world h) = (a, w) ->
  bind (call c op) k h = k a {| world := w; calls := calls h ++ [c] |}.
Proof. intros H. unfold bind, call. rewrite H. reflexivity. Qed.

(** A call of the host whose reply is among the hypotheses. *)
Ltac reply := erewrite bind_call by (cbn [world]; eassumption); cbn [world calls].

(** Unfold the calls of the host made by an executor. *)
Ltac run_calls :=
  repeat (rewrite bind_run
          || (unfold Lstat, Mkdir, Symlink, Readlink, Remove, WriteFile, Run_;
              rewrite call_run)
          || (progress cbn [fst snd world calls])).

(** C8: a file resource whose path reads as the empty string fails with
    "file path is empty" whatever its sub-variant is, and leaves the host
    as it was: no [System] method is called. *)
Theorem applyFile_empty_path (f : File) (h : Host W) :
  Path f = Ok EmptyString ->
  applyFile app f h = (Some (errorString "file path is empty"), h).
Proof. intros H. unfold applyFile. rewrite H. reflexivity. Qed.

(** C6 (as amended): for a plain file resource without content the
    executor calls [Lstat(path)] and nothing else; it succeeds iff [Lstat]
    succeeds and reports a regular file; an error of [Lstat] (a missing
    path among them) is returned as it is, and an entry of another kind
    yields the error "%s is not a regular file". *)
Theorem applyFile_plain_without_content (f : File) (path : string) (h : Host W) :
  Path f = Ok path -> path <> EmptyString -> Which f = File_Which_plain None ->
  let r := system.Lstat (System app) path (world h) in
  applyFile app f h =
    (match fst r with
     | Err err => Some err
     | Ok info =>
         if system.IsRegular (system.Mode info) then None
         else Some (Errorf "%s is not a regular file" [])
     end,
     {| world := snd r; calls := calls h ++ [system.CallLstat path] |})
  /\ (fst (applyFile app f h) = None <->
      exists info, fst r = Ok info /\ system.IsRegular (system.Mode info) = true)
  /\ (forall err, fst r = Err err -> fst (applyFile app f h) = Some err)
  /\ (forall info, fst r = Ok info -> system.IsRegular (system.Mode info) = false ->
      exists e, fst (applyFile app f h) = Some e /\ isStateError e = true).
Proof.
  intros Hp Hne Hw r.
  assert (E : applyFile app f h =
    (match fst r with
     | Err err => Some err
     | Ok info =>
         if system.IsRegular (system.Mode info) then None
         else Some (Errorf "%s is not a regular file" [])
     end,
     {| world := snd r; calls := calls h ++ [system.CallLstat path] |})).
  { unfold applyFile. rewrite Hp, Hw.
    apply String.eqb_neq in Hne. rewrite Hne. run_calls. fold r.
    destruct (fst r) as [info|err]; [|reflexivity].
    destruct (system.IsRegular (system.Mode info)); reflexivity. }
  split; [exact E|]. rewrite E. cbn [fst]. repeat split.
  - destruct (fst r) as [info|err]; [|discriminate].
    destruct (system.IsRegular (system.Mode info)) eqn:R; [|discriminate].
    intros _. exists info. split; [reflexivity|assumption].
  - intros [info [-> ->]]. reflexivity.
  - intros err ->. reflexivity.
  - intros info -> ->. eexists. split; reflexivity.
Qed.

(** C5: a symlink resource whose first [Symlink(target, path)] fails with
    an exists error, where [Lstat(path)] then reports a symlink and
    [Readlink(path)] succeeds.  If the link read differs from [target],
    the calls are [Symlink], [Lstat], [Readlink], [Remove], [Symlink], in
    this order, and the executor succeeds when [Remove] and the second
    [Symlink] do; an error of [Remove] (after which no second [Symlink] is
    made) or of the second [Symlink] comes back under the format
    "retargeting %s: %v".  If the link read equals [target], the executor
    succeeds after [Readlink], with no [Remove] and no second
    [Symlink]. *)
Theorem applyFile_symlink_retarget
  (f : File) (path target actual : string) (h : Host W)
  (e0 : error) (w1 w2 w3 : W) (info : system.FileInfo) :
  Path f = Ok path -> path <> EmptyString ->
  Which f = File_Which_symlink (Ok target) ->
  system.Symlink (System app) target path (world h) = (Some e0, w1) ->
  IsExist e0 = true ->
  system.Lstat (System app) path w1 = (Ok info, w2) ->
  N.land (system.Mode info) system.ModeType = system.ModeSymlink ->
  system.Readlink (System app) path w2 = (Ok actual, w3) ->
  let seen := calls h ++ [system.CallSymlink target path; system.CallLstat path;
                          system.CallReadlink path] in
  (actual = target ->
   applyFile app f h = (None, {| world := w3; calls := seen |}))
  /\
  (actual <> target ->
   (forall w4 w5,
      system.Remove (System app) path w3 = (None, w4) ->
      system.Symlink (System app) target path w4 = (None, w5) ->
      applyFile app f h =
        (None, {| world := w5;
                  calls := seen ++ [system.CallRemove path;
                                    system.CallSymlink target path] |}))
   /\
   (forall e1 w4,
      system.Remove (System app) path w3 = (Some e1, w4) ->
      applyFile app f h =
        (Some (Errorf "retargeting %s: %v" [argString path; argError e1]),
         {| world := w4; calls := seen ++ [system.CallRemove path] |})
      /\ startsWith "retargeting" (fst (applyFile app f h)) = true)
   /\
   (forall e2 w4 w5,
      system.Remove (System app) path w3 = (None, w4) ->
      system.Symlink (System app) target path w4 = (Some e2, w5) ->
      applyFile app f h =
        (Some (Errorf "retargeting %s: %v" [argString path; argError e2]),
         {| world := w5;
            calls := seen ++ [system.CallRemove path;
                              system.CallSymlink target path] |})
      /\ startsWith "retargeting" (fst (applyFile app f h)) = true)).
Proof.
  intros Hp Hne Hw Hs Hex Hl Hm Hr seen.
  assert (E : applyFile app f h =
    (if String.eqb actual target then ret None
     else
       err1 <- Remove app path ;;
       match err1 with
       | Some e1 => ret (Some (Errorf "retargeting %s: %v" [argString path; argError e1]))
       | None =>
           err2 <- Symlink app target path ;;
           match err2 with
           | Some e2 =>
               ret (Some (Errorf "retargeting %s: %v" [argString path; argError e2]))
           | None => ret None
           end
       end) {| world := w3; calls := seen |}).
  { unfold applyFile. rewrite Hp, Hw.
    apply String.eqb_neq in Hne. rewrite Hne.
    unfold Symlink, Lstat, Readlink, Remove.
    reply. rewrite Hex. cbn [negb].
    reply. rewrite Hm, N.eqb_refl. cbn [negb].
    reply. unfold seen. rewrite <- !app_assoc. reflexivity. }
  rewrite E. split.
  - intros ->. rewrite String.eqb_refl. reflexivity.
  - intros Hd. apply String.eqb_neq in Hd. rewrite Hd.
    split; [|split].
    + intros w4 w5 H1 H2. unfold Remove, Symlink. do 2 reply.
      rewrite <- !app_assoc. reflexivity.
    + intros e1 w4 H1. unfold Remove. reply. split; reflexivity.
    + intros e2 w4 w5 H1 H2. unfold Remove, Symlink. do 2 reply.
      rewrite <- !app_assoc. split; reflexivity.
Qed.

(** [runMain] when the main command builds: one [Run] of the descriptor
    as built; a failure comes back with the output of the command. *)
Lemma runMain_run (e : Exec) (main : Exec_Command) (cmd : system.Cmd) (h : Host W) :
  Command e = Ok main -> buildCommand LocalRoot main = Ok cmd ->
  runMain app LocalRoot e h =
    (match snd (fst (system.Run (System app) cmd (world h))) with
     | Some err =>
         errorWithOutput (fst (fst (system.Run (System app) cmd (world h))))
                         (Some (Errorf "command: %v" [argError err]))
     | None => None
     end,
     {| world := snd (system.Run (System app) cmd (world h));
        calls := calls h ++ [system.CallRun cmd] |}).
Proof.
  intros Hc Hb. unfold runMain. rewrite Hc, Hb. unfold Run_.
  rewrite bind_run, call_run. cbn [fst snd].
  destruct (snd (fst (system.Run (System app) cmd (world h)))); reflexivity.
Qed.

(** C7: the descriptor built for a command has as its environment the
    pairs [name=value] of the catalog, one per entry and in their order,
    and nothing else; a command one of whose entries has an empty name is
    refused with an [errorf] error; and [runMain] hands the descriptor to
    [System.Run] as it was built. *)
Theorem buildCommand_environment (cmd : Exec_Command) :
  (forall c, buildCommand LocalRoot cmd = Ok c ->
     system.Env c = map envPair (orZero [] (Environment cmd)) /\
     (forall ei, In ei (orZero [] (Environment cmd)) ->
        exists k, NameBytes ei = Ok k /\ k <> EmptyString))
  /\ ((exists ei, In ei (orZero [] (Environment cmd)) /\ NameBytes ei = Ok EmptyString) ->
      exists f a, buildCommand LocalRoot cmd = Err (Errorf f a))
  /\ (forall c e h, Command e = Ok cmd -> buildCommand LocalRoot cmd = Ok c ->
        calls (snd (runMain app LocalRoot e h)) = calls h ++ [system.CallRun c] /\
        system.Env c = map envPair (orZero [] (Environment cmd))).
Proof.
  assert (A : forall c, buildCommand LocalRoot cmd = Ok c ->
     system.Env c = map envPair (orZero [] (Environment cmd)) /\
     (forall ei, In ei (orZero [] (Environment cmd)) ->
        exists k, NameBytes ei = Ok k /\ k <> EmptyString)).
  { intros c H. apply buildCommand_Ok in H.
    destruct H as (a & argv & env & _ & _ & _ & He & _ & ->).
    apply readEnv_Ok in He. destruct He as [-> Hn]. split; [reflexivity|exact Hn]. }
  split; [exact A|]. split.
  - intros [ei [Hin Hn]].
    destruct (buildCommand LocalRoot cmd) as [c|e] eqn:E.
    + destruct (A c eq_refl) as [_ Hk]. destruct (Hk ei Hin) as [k [Hk1 Hk2]].
      congruence.
    + destruct (buildCommand_Err _ _ _ E) as [f [a ->]]. eauto.
  - intros c e h Hc Hb. split; [|apply (A c Hb)].
    rewrite (runMain_run e cmd c h Hc Hb). reflexivity.
Qed.

(** C3: an exec resource with the condition [onlyIf(cond)], where [cond]
    builds to the descriptor [cmd].  The executor runs [cmd].  If that
    fails with an [ExitError] (a non-zero exit), it returns [nil] and runs
    nothing else.  If it succeeds (exit zero), the executor goes on with
    the main command, which is run next when it builds.  If it fails in
    another way, the executor returns the error "condition: %v" with the
    captured output attached, and runs nothing else. *)
Theorem applyExec_onlyIf (e : Exec) (cond : Exec_Command) (cmd : system.Cmd) (h : Host W) :
  Condition e = Exec_condition_Which_onlyIf (Ok cond) ->
  buildCommand LocalRoot cond = Ok cmd ->
  let r := system.Run (System app) cmd (world h) in
  let h1 := {| world := snd r; calls := calls h ++ [system.CallRun cmd] |} in
  (forall err, snd (fst r) = Some err -> isExitError err = true ->
     applyExec app LocalRoot e h = (None, h1))
  /\
  (snd (fst r) = None ->
     applyExec app LocalRoot e h = runMain app LocalRoot e h1 /\
     forall main mcmd, Command e = Ok main -> buildCommand LocalRoot main = Ok mcmd ->
       calls (snd (applyExec app LocalRoot e h))
       = calls h ++ [system.CallRun cmd; system.CallRun mcmd])
  /\
  (forall err, snd (fst r) = Some err -> isExitError err = false ->
     applyExec app LocalRoot e h =
       (errorWithOutput (fst (fst r)) (Some (Errorf "condition: %v" [argError err])), h1)
     /\ errorOutput (fst (applyExec app LocalRoot e h)) = Some (fst (fst r))).
Proof.
  intros Hc Hb r h1.
  assert (E : applyExec app LocalRoot e h =
    match snd (fst r) with
    | Some err =>
        if isExitError err then (None, h1)
        else (errorWithOutput (fst (fst r)) (Some (Errorf "condition: %v" [argError err])), h1)
    | None => runMain app LocalRoot e h1
    end).
  { unfold applyExec. rewrite Hc, Hb. unfold Run_. rewrite bind_run, call_run.
    cbn [fst snd]. fold r. fold h1.
    destruct (snd (fst r)) as [err|]; [|reflexivity].
    destruct (isExitError err); reflexivity. }
  rewrite E. split; [|split].
  - intros err -> ->. reflexivity.
  - intros ->. split; [reflexivity|].
    intros main mcmd Hm Hbm. rewrite (runMain_run e main mcmd h1 Hm Hbm).
    cbn [snd calls h1]. rewrite <- app_assoc. reflexivity.
  - intros err -> ->. split; [reflexivity|]. reflexivity.
Qed.

Lemma Mark_done (g : depgraph.Graph) (curr : N) (n : depgraph.node) :
  In n (depgraph.Mark g curr) -> depgraph.nodeID n = curr ->
  depgraph.status n = depgraph.done.
Proof.
  unfold depgraph.Mark, depgraph.markNode. intros Hin Hid. apply in_map_iff in Hin.
  destruct Hin as [m [<- _]].
  destruct (N.eqb (depgraph.nodeID m) curr) eqn:E; [reflexivity|].
  apply N.eqb_neq in E. contradiction.
Qed.

(** C4: an exec resource with the condition [unless(cond)], where [cond]
    builds to the descriptor [cmd].  The executor runs [cmd].  If that
    succeeds (exit zero), the executor returns [nil] without running the
    main command, and the driver marks the resource done.  If it fails
    with an [ExitError] (a non-zero exit), the executor goes on with the
    main command, which is run next when it builds.  If it fails in
    another way, the executor returns the error "condition: %v" with the
    captured output attached, and runs nothing else. *)
Theorem applyExec_unless (e : Exec) (cond : Exec_Command) (cmd : system.Cmd) (h : Host W) :
  Condition e = Exec_condition_Which_unless (Ok cond) ->
  buildCommand LocalRoot cond = Ok cmd ->
  let r := system.Run (System app) cmd (world h) in
  let h1 := {| world := snd r; calls := calls h ++ [system.CallRun cmd] |} in
  (snd (fst r) = None ->
     applyExec app LocalRoot e h = (None, h1) /\
     forall ok g curr run,
       Body (depgraph.Resource g curr) = Resource_Which_exec (Ok e) ->
       host (logInfof app ("applying: " ++ formatResource (depgraph.Resource g curr)) run)
       = h ->
       exists run',
         loopBody app LocalRoot ok g curr run = (ok, depgraph.Mark g curr, run') /\
         host run' = h1 /\
         forall n, In n (depgraph.Mark g curr) -> depgraph.nodeID n = curr ->
                   depgraph.status n = depgraph.done)
  /\
  (forall err, snd (fst r) = Some err -> isExitError err = true ->
     applyExec app LocalRoot e h = runMain app LocalRoot e h1 /\
     forall main mcmd, Command e = Ok main -> buildCommand LocalRoot main = Ok mcmd ->
       calls (snd (applyExec app LocalRoot e h))
       = calls h ++ [system.CallRun cmd; system.CallRun mcmd])
  /\
  (forall err, snd (fst r) = Some err -> isExitError err = false ->
     applyExec app LocalRoot e h =
       (errorWithOutput (fst (fst r)) (Some (Errorf "condition: %v" [argError err])), h1)
     /\ errorOutput (fst (applyExec app LocalRoot e h)) = Some (fst (fst r))).
Proof.
  intros Hc Hb r h1.
  assert (E : applyExec app LocalRoot e h =
    match snd (fst r) with
    | None => (None, h1)
    | Some err =>
        if isExitError err then runMain app LocalRoot e h1
        else (errorWithOutput (fst (fst r)) (Some (Errorf "condition: %v" [argError err])), h1)
    end).
  { unfold applyExec. rewrite Hc, Hb. unfold Run_. rewrite bind_run, call_run.
    cbn [fst snd]. fold r. fold h1.
    destruct (snd (fst r)) as [err|]; [|reflexivity].
    destruct (isExitError err); reflexivity. }
  split; [|split].
  - intros Hr. rewrite Hr in E. split; [exact E|].
    intros ok g curr run Hbody Hh.
    unfold loopBody, runResource. rewrite Hh.
    unfold applyResource. rewrite Hbody, E. cbn [errorWithResource].
    eexists. split; [reflexivity|]. split; [reflexivity|]. apply Mark_done.
  - intros err Hr Hx. rewrite Hr, Hx in E. split; [exact E|].
    intros main mcmd Hm Hbm. rewrite E, (runMain_run e main mcmd h1 Hm Hbm).
    cbn [snd calls h1]. rewrite <- app_assoc. reflexivity.
  - intros err Hr Hx. rewrite Hr, Hx in E. rewrite E. split; reflexivity.
Qed.

End ExecutorTheory.

(** *** The executors on the scripted host *)

(** The environment of [echoCommand] reaches [System.Run] as listed, and
    a command with an empty name is refused. *)
Lemma buildCommand_environment_witness :
  buildCommand "/" echoCommand = Ok echoCmd /\
  system.Env echoCmd = ["A=1"; "B="]%string /\
  calls (snd (runMain scripted "/" echoExec (onHost (script []))))
  = [system.CallRun echoCmd] /\
  exists f a, buildCommand "/" emptyNameCommand = Err (Errorf f a).
Proof.
  split; [reflexivity|].
  destruct (buildCommand_environment scripted "/" echoCommand) as [H1 [_ H3]].
  destruct (buildCommand_environment scripted "/" emptyNameCommand) as [_ [H2 _]].
  split; [exact (proj1 (H1 echoCmd eq_refl))|].
  split; [exact (proj1 (H3 echoCmd echoExec (onHost (script [])) eq_refl eq_refl))|].
  apply H2. exists {| NameBytes := Ok EmptyString; ValueBytes := Ok "x"%string |}.
  split; [right; left; reflexivity|reflexivity].
Defined.

(** An empty path wins over a sub-variant that would write. *)
Lemma applyFile_empty_path_witness :
  Path emptyPathFile = Ok EmptyString /\
  applyFile scripted emptyPathFile (onHost (script []))
  = (Some (errorString "file path is empty"), onHost (script [])).
Proof.
  split; [reflexivity|].
  apply (applyFile_empty_path scripted emptyPathFile (onHost (script []))). reflexivity.
Defined.

(** A plain file without content at a path that does not exist: one
    [Lstat], whose error comes back as it is. *)
Lemma applyFile_plain_without_content_witness :
  applyFile scripted plainFile (onHost (script [ReplyInfo (Err noSuchFile)]))
  = (Some noSuchFile,
     {| world := {| replies := []; ticks := 1; cancelAt := None |};
        calls := [system.CallLstat "/tmp/a"] |}).
Proof.
  refine (proj1 (applyFile_plain_without_content scripted plainFile "/tmp/a"
                   (onHost (script [ReplyInfo (Err noSuchFile)])) _ _ _));
    [reflexivity | discriminate | reflexivity].
Defined.

(** C6 as stated fails: at a missing path the executor returns the error
    of [Lstat] itself, a not-exist error of the host, and no state
    error. *)
Lemma applyFile_plain_missing_not_StateError :
  fst (applyFile scripted plainFile (onHost (script [ReplyInfo (Err noSuchFile)])))
  = Some noSuchFile /\
  IsNotExist noSuchFile = true /\
  ~ (exists e,
       fst (applyFile scripted plainFile (onHost (script [ReplyInfo (Err noSuchFile)])))
       = Some e /\ isStateError e = true).
Proof.
  split; [reflexivity|]. split; [reflexivity|].
  intros [e [He Hs]]. cbv in He. injection He as <-. discriminate Hs.
Qed.

(** Scenario 4: the link is retargeted with the five calls in order. *)
Lemma applyFile_symlink_retarget_witness :
  applyFile scripted linkFile (onHost linkExists)
  = (None,
     {| world := {| replies := []; ticks := 5; cancelAt := None |};
        calls := [system.CallSymlink "/new" "/tmp/link"; system.CallLstat "/tmp/link";
                  system.CallReadlink "/tmp/link"; system.CallRemove "/tmp/link";
                  system.CallSymlink "/new" "/tmp/link"] |}).
Proof.
  assert (Hp : "/tmp/link"%string <> EmptyString) by discriminate.
  destruct (applyFile_symlink_retarget scripted linkFile "/tmp/link" "/new" "/old"
              (onHost linkExists) fileExists
              {| replies := tl (replies linkExists); ticks := 1; cancelAt := None |}
              {| replies := tl (tl (replies linkExists)); ticks := 2; cancelAt := None |}
              {| replies := tl (tl (tl (replies linkExists))); ticks := 3; cancelAt := None |}
              {| system.Mode := system.ModeSymlink |}
              eq_refl Hp eq_refl eq_refl eq_refl eq_refl eq_refl eq_refl) as [_ H].
  assert (Hd : "/old"%string <> "/new"%string) by discriminate.
  destruct (H Hd) as [H1 _].
  exact (H1 {| replies := [ReplyErr None]; ticks := 4; cancelAt := None |}
            {| replies := []; ticks := 5; cancelAt := None |} eq_refl eq_refl).
Defined.

(** [onlyIf = /bin/false]: the condition exits with a non-zero status, the
    executor returns [nil] and [/bin/true], the main command, is not
    run. *)
Lemma applyExec_onlyIf_witness :
  applyExec scripted "/" onlyIfExec
    (onHost (script [ReplyRun EmptyString (Some (ExitError "exit status 1"))]))
  = (None,
     {| world := {| replies := []; ticks := 1; cancelAt := None |};
        calls := [system.CallRun (cmdOf "/bin/false")] |}).
Proof.
  destruct (applyExec_onlyIf scripted "/" onlyIfExec falseCommand (cmdOf "/bin/false")
              (onHost (script [ReplyRun EmptyString (Some (ExitError "exit status 1"))]))
              eq_refl eq_refl) as [H _].
  exact (H (ExitError "exit status 1") eq_refl eq_refl).
Defined.

(** Scenario 3: [unless = /bin/true] exits zero; [/bin/true] is run,
    [/bin/false] is not, the executor returns [nil] and the driver marks
    the resource done. *)
Lemma applyExec_unless_witness :
  applyExec scripted "/" unlessExec (onHost (tick (script [])))
  = (None,
     {| world := {| replies := []; ticks := 2; cancelAt := None |};
        calls := [system.CallRun (cmdOf "/bin/true")] |})
  /\
  exists run',
    loopBody scripted "/" true (pendingGraph [unlessResource]) 1 (start (script []))
    = (true, depgraph.Mark (pendingGraph [unlessResource]) 1, run') /\
    calls (host run') = [system.CallRun (cmdOf "/bin/true")] /\
    depgraph.Mark (pendingGraph [unlessResource]) 1
    = [{| depgraph.res := unlessResource; depgraph.status := depgraph.done |}].
Proof.
  destruct (applyExec_unless scripted "/" unlessExec trueCommand (cmdOf "/bin/true")
              (onHost (tick (script []))) eq_refl eq_refl) as [H _].
  destruct (H eq_refl) as [H1 H2]. split; [exact H1|].
  destruct (H2 true (pendingGraph [unlessResource]) 1%N (start (script []))
               eq_refl eq_refl) as [run' [Hl [Hh _]]].
  exists run'. split; [exact Hl|]. split; [|reflexivity].
  rewrite Hh. reflexivity.
Defined.

End execlib.

(** ** Facts about the dependency graph *)
Module depgraph_facts.
Import catalog depgraph.

Lemma forallb_false {A : Type} (f : A -> bool) (l : list A) :
  forallb f l = false -> exists x, In x l /\ f x = false.
Proof.
  induction l as [|a l IH]; simpl; [discriminate|].
  destruct (f a) eqn:E; simpl.
  - intros H. destruct (IH H) as [x [Hin Hx]]. eauto.
  - intros _. eauto.
Qed.

Lemma filter_nil {A : Type} (f : A -> bool) (l : list A) :
  filter f l = [] -> forall x, In x l -> f x = false.
Proof.
  induction l as [|a l IH]; simpl; intros H x Hin; [destruct Hin|].
  destruct (f a) eqn:E; [discriminate|].
  destruct Hin as [<-|Hin]; auto.
Qed.

Lemma insert_In (x y : N) (l : list N) : In y (insert x l) <-> y = x \/ In y l.
Proof.
  induction l as [|a l IH]; simpl.
  - intuition.
  - destruct (x <=? a)%N; simpl; [intuition|]. rewrite IH. intuition.
Qed.

Lemma sortIDs_In (y : N) (l : list N) : In y (sortIDs l) <-> In y l.
Proof.
  induction l as [|a l IH]; simpl; [reflexivity|].
  rewrite insert_In, IH. intuition.
Qed.

Lemma lookup_Some (g : Graph) (id : N) (n : node) :
  lookup g id = Some n -> In n g /\ nodeID n = id.
Proof.
  unfold lookup. intros H. apply find_some in H. destruct H as [Hin He].
  apply N.eqb_eq in He. auto.
Qed.

Lemma nodupIDs_notin (x : N) (l : list N) :
  existsb (N.eqb x) l = false -> ~ In x l.
Proof.
  intros H Hin. assert (E : existsb (N.eqb x) l = true).
  { apply existsb_exists. exists x. split; [assumption|apply N.eqb_refl]. }
  congruence.
Qed.

Lemma nodupIDs_NoDup (l : list N) : nodupIDs l = true -> NoDup l.
Proof.
  induction l as [|x l IH]; simpl; intros H; [constructor|].
  apply andb_true_iff in H. destruct H as [H1 H2].
  apply negb_true_iff in H1. constructor; [now apply nodupIDs_notin|auto].
Qed.

(** With unique IDs a node is found under its own ID. *)
Lemma lookup_unique (g : Graph) (n : node) :
  NoDup (map nodeID g) -> In n g -> lookup g (nodeID n) = Some n.
Proof.
  unfold lookup. induction g as [|a g IH]; simpl; intros Hnd Hin; [destruct Hin|].
  inversion Hnd as [|? ? Hna Hnd']; subst.
  destruct Hin as [->|Hin].
  - now rewrite N.eqb_refl.
  - destruct (N.eqb (nodeID a) (nodeID n)) eqn:E; [|auto].
    apply N.eqb_eq in E. exfalso. apply Hna. rewrite E. now apply in_map.
Qed.

Lemma same_ID (g : Graph) (n m : node) :
  NoDup (map nodeID g) -> In n g -> In m g -> nodeID n = nodeID m -> n = m.
Proof.
  intros Hnd Hn Hm E. pose proof (lookup_unique g n Hnd Hn) as H1.
  pose proof (lookup_unique g m Hnd Hm) as H2. congruence.
Qed.

(** *** Changes of status only *)
Section Restatus.

Variable f : node -> node.
Hypothesis f_res : forall n, res (f n) = res n.

Lemma restatus_ID (n : node) : nodeID (f n) = nodeID n.
Proof. unfold nodeID. now rewrite f_res. Qed.

Lemma restatus_deps (n : node) : deps (f n) = deps n.
Proof. unfold deps. now rewrite f_res. Qed.

Lemma restatus_IDs (g : Graph) : map nodeID (map f g) = map nodeID g.
Proof. rewrite map_map. apply map_ext. intros n. apply restatus_ID. Qed.

Lemma restatus_res (g : Graph) : map res (map f g) = map res g.
Proof. rewrite map_map. apply map_ext. intros n. apply f_res. Qed.

Lemma restatus_lookup (g : Graph) (id : N) :
  lookup (map f g) id = option_map f (lookup g id).
Proof.
  unfold lookup. induction g as [|a g IH]; simpl; [reflexivity|].
  rewrite restatus_ID. destruct (N.eqb (nodeID a) id); [reflexivity|exact IH].
Qed.

Lemma restatus_grounded (g : Graph) (k : nat) :
  forall id, grounded k (map f g) id = grounded k g id.
Proof.
  induction k as [|k IH]; intros id; simpl; [reflexivity|].
  rewrite restatus_lookup. destruct (lookup g id) as [n|]; simpl; [|reflexivity].
  rewrite restatus_deps. induction (deps n) as [|d l IHl]; simpl; [reflexivity|].
  now rewrite IH, IHl.
Qed.

(** If no node becomes pending and one stops being so, fewer are. *)
Lemma restatus_pendingCount (g : Graph) (n : node) :
  (forall m, isPending (f m) = true -> isPending m = true) ->
  In n g -> isPending n = true -> isPending (f n) = false ->
  (pendingCount (map f g) < pendingCount g)%nat.
Proof.
  intros Hmono. unfold pendingCount.
  assert (Hle : forall l, (List.length (filter isPending (map f l))
                           <= List.length (filter isPending l))%nat).
  { induction l as [|a l IH]; simpl; [lia|].
    destruct (isPending (f a)) eqn:E.
    - rewrite (Hmono a E). simpl. lia.
    - destruct (isPending a); simpl; lia. }
  induction g as [|a g IH]; simpl; intros Hin Hp Hq; [destruct Hin|].
  destruct Hin as [->|Hin].
  - rewrite Hp, Hq. simpl. specialize (Hle g). lia.
  - specialize (IH Hin Hp Hq). destruct (isPending (f a)) eqn:E.
    + rewrite (Hmono a E). simpl. lia.
    + destruct (isPending a); simpl; lia.
Qed.

End Restatus.

Lemma Mark_map (g : Graph) (id : N) : Mark g id = map (markNode id) g.
Proof. reflexivity. Qed.

Lemma MarkFailure_map (g : Graph) (id : N) :
  snd (MarkFailure g id) = map (failNode g id) g.
Proof. reflexivity. Qed.

Lemma markNode_res (id : N) (n : node) : res (markNode id n) = res n.
Proof. unfold markNode. destruct (N.eqb _ _); reflexivity. Qed.

Lemma failNode_res (g : Graph) (id : N) (n : node) : res (failNode g id n) = res n.
Proof.
  unfold failNode. destruct (N.eqb _ _); [reflexivity|].
  destruct (toSkip g id n); reflexivity.
Qed.

(** A handle given by [Ready] is the ID of a pending node. *)
Lemma Ready_In (g : Graph) (id : N) :
  In id (Ready g) <-> exists n, In n g /\ isReady g n = true /\ nodeID n = id.
Proof.
  unfold Ready. rewrite sortIDs_In, in_map_iff. split.
  - intros [n [E Hin]]. apply filter_In in Hin. destruct Hin. eauto.
  - intros [n [Hin [Hr E]]]. exists n. split; [assumption|].
    apply filter_In. auto.
Qed.

Lemma Ready_pending (g : Graph) (id : N) :
  In id (Ready g) -> exists n, In n g /\ isPending n = true /\ nodeID n = id.
Proof.
  intros H. apply Ready_In in H. destruct H as [n [Hin [Hr E]]].
  unfold isReady in Hr. apply andb_true_iff in Hr. destruct Hr. eauto.
Qed.

Lemma Mark_fewer (g : Graph) (id : N) :
  In id (Ready g) -> (pendingCount (Mark g id) < pendingCount g)%nat.
Proof.
  intros H. apply Ready_pending in H. destruct H as [n [Hin [Hp E]]].
  rewrite Mark_map. apply restatus_pendingCount with (n := n); try assumption.
  - intros m. unfold markNode. destruct (N.eqb _ _); [discriminate|auto].
  - unfold markNode. apply N.eqb_eq in E. now rewrite E.
Qed.

Lemma MarkFailure_fewer (g : Graph) (id : N) :
  In id (Ready g) -> (pendingCount (snd (MarkFailure g id)) < pendingCount g)%nat.
Proof.
  intros H. apply Ready_pending in H. destruct H as [n [Hin [Hp E]]].
  rewrite MarkFailure_map. apply restatus_pendingCount with (n := n); try assumption.
  - intros m. unfold failNode. destruct (N.eqb _ _); [discriminate|].
    destruct (toSkip g id m); [discriminate|auto].
  - unfold failNode. apply N.eqb_eq in E. now rewrite E.
Qed.

Lemma Done_false (g : Graph) :
  Done g = false -> exists n, In n g /\ isPending n = true.
Proof.
  unfold Done. intros H. apply forallb_false in H. destruct H as [n [Hin Ht]].
  exists n. split; [assumption|]. unfold isPending.
  destruct (status n); solve [reflexivity | discriminate].
Qed.

Lemma Done_true (g : Graph) (n : node) :
  Done g = true -> In n g -> status n <> pending.
Proof.
  unfold Done. intros H Hin. rewrite forallb_forall in H. specialize (H n Hin).
  intros E. rewrite E in H. discriminate.
Qed.

(** *** The invariant [wellFormed] *)

Lemma wellFormed_parts (g : Graph) :
  wellFormed g = true <->
  nodupIDs (map nodeID g) = true /\
  (forall n, In n g -> grounded (List.length g) g (nodeID n) = true) /\
  (forall n, In n g -> isPending n = true ->
     forall d, In d (deps n) -> depLive g d = true).
Proof.
  unfold wellFormed, closed. rewrite !andb_true_iff, !forallb_forall. split.
  - intros [[H1 H2] H3]. repeat split; try assumption.
    intros n Hin Hp d Hd. specialize (H3 n Hin). rewrite Hp in H3. simpl in H3.
    rewrite forallb_forall in H3. auto.
  - intros [H1 [H2 H3]]. repeat split; try assumption.
    intros n Hin. destruct (isPending n) eqn:Hp; [|reflexivity]. simpl.
    apply forallb_forall. eauto.
Qed.

(** Below a pending node whose dependencies end, some node is ready. *)
Lemma pending_ready (g : Graph) :
  (forall n, In n g -> isPending n = true ->
     forall d, In d (deps n) -> depLive g d = true) ->
  forall k id n, lookup g id = Some n -> isPending n = true ->
    grounded k g id = true -> exists m, In m g /\ isReady g m = true.
Proof.
  intros Hcl. induction k as [|k IH]; intros id n Hl Hp Hg; simpl in Hg; [discriminate|].
  rewrite Hl in Hg. destruct (lookup_Some _ _ _ Hl) as [Hin _].
  destruct (forallb (depDone g) (deps n)) eqn:Hd.
  - exists n. split; [assumption|]. unfold isReady. now rewrite Hp, Hd.
  - apply forallb_false in Hd. destruct Hd as [d [Hdin Hdd]].
    rewrite forallb_forall in Hg. specialize (Hg d Hdin).
    specialize (Hcl n Hin Hp d Hdin). unfold depLive in Hcl. unfold depDone in Hdd.
    destruct (lookup g d) as [m|] eqn:Hm; [|discriminate].
    rewrite Hdd, orb_false_r in Hcl. exact (IH d m Hm Hcl Hg).
Qed.

(** In a well-formed graph that is not done, [Ready] is not empty. *)
Lemma Ready_nonempty (g : Graph) :
  wellFormed g = true -> Done g = false -> Ready g <> [].
Proof.
  intros Hwf Hd. apply wellFormed_parts in Hwf. destruct Hwf as [Hnd [Hgr Hcl]].
  apply Done_false in Hd. destruct Hd as [n [Hin Hp]].
  apply nodupIDs_NoDup in Hnd.
  destruct (pending_ready g Hcl (List.length g) (nodeID n) n) as [m [Hm Hr]];
    auto using lookup_unique.
  intros E. assert (Hi : In (nodeID m) (Ready g)) by (apply Ready_In; eauto).
  rewrite E in Hi. destruct Hi.
Qed.

Lemma Mark_wellFormed (g : Graph) (id : N) :
  wellFormed g = true -> wellFormed (Mark g id) = true.
Proof.
  rewrite !wellFormed_parts. intros [Hnd [Hgr Hcl]]. rewrite Mark_map.
  rewrite restatus_IDs by apply markNode_res. split; [assumption|]. split.
  - intros n Hin. apply in_map_iff in Hin. destruct Hin as [m [<- Hin]].
    rewrite length_map, restatus_grounded, restatus_ID by apply markNode_res. auto.
  - intros n Hin Hp d Hd. apply in_map_iff in Hin. destruct Hin as [m [<- Hin]].
    rewrite restatus_deps in Hd by apply markNode_res.
    assert (Hm : markNode id m = m).
    { unfold markNode in *. destruct (N.eqb (nodeID m) id); [discriminate|reflexivity]. }
    rewrite Hm in Hp. specialize (Hcl m Hin Hp d Hd).
    unfold depLive in *. rewrite restatus_lookup by apply markNode_res.
    destruct (lookup g d) as [x|]; [|discriminate]. simpl.
    unfold markNode. destruct (N.eqb (nodeID x) id); [reflexivity|assumption].
Qed.

(** Within the depth at which a node is grounded, a longer search for a
    dependency path finds nothing new. *)
Lemma dependsOn_grounded (g : Graph) (id : N) :
  forall j k a, grounded j g a = true -> dependsOn k g a id = true ->
    dependsOn j g a id = true.
Proof.
  induction j as [|j IH]; intros k a Hg Hd; simpl in Hg; [discriminate|].
  destruct k as [|k]; simpl in Hd; [discriminate|]. simpl.
  destruct (lookup g a) as [n|]; [|discriminate].
  apply existsb_exists in Hd. destruct Hd as [d [Hin Hd]].
  apply existsb_exists. exists d. split; [assumption|].
  apply orb_true_iff in Hd. apply orb_true_iff.
  destruct Hd as [Hd|Hd]; [now left|right].
  rewrite forallb_forall in Hg. eauto.
Qed.

Lemma MarkFailure_wellFormed (g : Graph) (id : N) :
  wellFormed g = true -> wellFormed (snd (MarkFailure g id)) = true.
Proof.
  rewrite !wellFormed_parts. intros [Hnd [Hgr Hcl]]. rewrite MarkFailure_map.
  rewrite restatus_IDs by apply failNode_res. split; [assumption|]. split.
  - intros n Hin. apply in_map_iff in Hin. destruct Hin as [m [<- Hin]].
    rewrite length_map, restatus_grounded, restatus_ID by apply failNode_res. auto.
  - intros n Hin Hp d Hd. apply in_map_iff in Hin. destruct Hin as [m [<- Hin]].
    rewrite restatus_deps in Hd by apply failNode_res.
    unfold failNode in Hp.
    destruct (N.eqb (nodeID m) id) eqn:Eid; [discriminate|].
    destruct (toSkip g id m) eqn:Es; [discriminate|].
    specialize (Hcl m Hin Hp d Hd).
    unfold toSkip in Es. rewrite Hp, Eid in Es. simpl in Es.
    pose proof (Hgr m Hin) as Hgm.
    apply nodupIDs_NoDup in Hnd. pose proof (lookup_unique g m Hnd Hin) as Hlm.
    destruct (List.length g) as [|k] eqn:Len; simpl in Hgm; [discriminate|].
    rewrite Hlm in Hgm. simpl in Es. rewrite Hlm in Es.
    assert (Hno : (N.eqb d id || dependsOn k g d id) = false).
    { destruct (N.eqb d id || dependsOn k g d id) eqn:E; [|reflexivity].
      assert (X : existsb (fun d => N.eqb d id || dependsOn k g d id) (deps m) = true)
        by (apply existsb_exists; eauto).
      congruence. }
    apply orb_false_iff in Hno. destruct Hno as [Hne Hdep].
    unfold depLive in *. rewrite restatus_lookup by apply failNode_res.
    destruct (lookup g d) as [x|] eqn:Hx; [|discriminate]. simpl.
    destruct (lookup_Some _ _ _ Hx) as [Hxin Hxid].
    unfold failNode. rewrite Hxid, Hne.
    destruct (toSkip g id x) eqn:Ex; [|assumption].
    unfold toSkip in Ex. apply andb_true_iff in Ex. destruct Ex as [_ Ex].
    rewrite Hxid, Len in Ex. rewrite forallb_forall in Hgm.
    rewrite (dependsOn_grounded g id k (S k) d (Hgm d Hd) Ex) in Hdep. discriminate.
Qed.

Lemma findDuplicate_None (rs : list catalog.Resource) : forall seen,
  findDuplicate seen rs = None ->
  nodupIDs (map ID rs) = true /\
  forall r, In r rs -> existsb (N.eqb (ID r)) seen = false.
Proof.
  induction rs as [|r rs IH]; intros seen H; simpl in H.
  - split; [reflexivity|intros r []].
  - destruct (existsb (N.eqb (ID r)) seen) eqn:E; [discriminate|].
    destruct (IH _ H) as [Hn Hs]. split.
    + simpl. rewrite Hn, andb_true_r. apply negb_true_iff.
      destruct (existsb (N.eqb (ID r)) (map ID rs)) eqn:X; [|reflexivity].
      apply existsb_exists in X. destruct X as [x [Hin Hx]].
      apply in_map_iff in Hin. destruct Hin as [r' [<- Hin]].
      specialize (Hs r' Hin). simpl in Hs. apply orb_false_iff in Hs.
      destruct Hs as [Hs _]. rewrite N.eqb_sym in Hs. congruence.
    + intros r' [<-|Hin]; [assumption|].
      specialize (Hs r' Hin). simpl in Hs. apply orb_false_iff in Hs. tauto.
Qed.

(** A graph that [New] yields holds the resources of the catalog, all
    pending, and is well formed. *)
Lemma New_Ok (rs : list catalog.Resource) (g : Graph) :
  New rs = Ok g ->
  g = map (fun r => {| res := r; status := pending |}) rs /\ wellFormed g = true.
Proof.
  unfold New. intros H.
  destruct (existsb _ rs); [discriminate|].
  destruct (findDuplicate [] rs) eqn:Ed; [discriminate|].
  destruct (findMissing rs rs) as [[a b]|]; [discriminate|].
  set (g0 := map (fun r => {| res := r; status := pending |}) rs) in *.
  destruct (filter _ g0) eqn:Ef; [|discriminate].
  injection H as <-. split; [reflexivity|].
  apply findDuplicate_None in Ed. destruct Ed as [Hnd _].
  assert (Hids : map nodeID g0 = map ID rs).
  { unfold g0. rewrite map_map. reflexivity. }
  assert (Hgr : forall n, In n g0 -> grounded (List.length g0) g0 (nodeID n) = true).
  { intros n Hin. pose proof (filter_nil _ _ Ef n Hin) as X.
    now apply negb_false_iff in X. }
  apply wellFormed_parts. rewrite Hids. split; [assumption|]. split; [assumption|].
  intros n Hin _ d Hd. specialize (Hgr n Hin).
  destruct (List.length g0) as [|k]; simpl in Hgr; [discriminate|].
  rewrite <- Hids in Hnd. apply nodupIDs_NoDup in Hnd.
  rewrite (lookup_unique g0 n Hnd Hin) in Hgr.
  rewrite forallb_forall in Hgr. specialize (Hgr d Hd).
  destruct k as [|k]; simpl in Hgr; [discriminate|].
  unfold depLive. destruct (lookup g0 d) as [m|] eqn:Hm; [|discriminate].
  apply lookup_Some in Hm. destruct Hm as [Hm _]. unfold g0 in Hm.
  apply in_map_iff in Hm. destruct Hm as [r [<- _]]. reflexivity.
Qed.

End depgraph_facts.

(** ** The driver *)
Module driver.
Import catalog depgraph depgraph_facts execlib.

Section DriverTheory.

Context {W : Type}.
Variable app : Applier W.
Variable ctx : Context W.
Variable LocalRoot : string.

Lemma errorWithResource_nil (x : catalog.Resource) (e : goerror) :
  errorWithResource x e = None <-> e = None.
Proof.
  unfold errorWithResource. split; [|now intros ->].
  destruct e as [e|]; [|reflexivity]. destruct e; discriminate.
Qed.

Lemma isPending_status (n : node) : isPending n = true <-> status n = pending.
Proof. unfold isPending. destruct (status n); split; congruence. Qed.

(** One iteration: the result of the executor decides between [Mark] and
    [MarkFailure], and the executor is called once. *)
Lemma loopBody_cases (ok : bool) (g : Graph) (curr : N) (r : Run W) :
  exists e r',
    e = fst (applyResource app LocalRoot (Resource g curr)
               (host (logInfof app ("applying: " ++ formatResource (Resource g curr)) r))) /\
    loopBody app LocalRoot ok g curr r =
      (match e with None => ok | Some _ => false end,
       match e with None => Mark g curr | Some _ => snd (MarkFailure g curr) end,
       r') /\
    applied r' = applied r ++ [(curr, e)] /\
    exists more, logs r' = logs r ++ LogInfo ("applying: " ++ formatResource (Resource g curr))
                                  :: more /\ (e = None -> more = []).
Proof.
  unfold loopBody, runResource.
  destruct (applyResource app LocalRoot (Resource g curr) _) as [e h] eqn:E.
  exists e. cbn [fst].
  destruct (errorWithResource (Resource g curr) e) as [err|] eqn:Ew.
  - destruct e as [e0|]; [|discriminate].
    destruct (MarkFailure g curr) as [skipped g'] eqn:Em. cbn [snd].
    eexists. split; [reflexivity|]. split; [reflexivity|].
    destruct (0 <? List.length skipped)%nat; unfold logInfof, logError;
      cbn [logs applied]; (split; [reflexivity|]);
      rewrite <- !app_assoc; eexists; (split; [reflexivity|discriminate]).
  - apply errorWithResource_nil in Ew. subst e.
    eexists. split; [reflexivity|]. split; [reflexivity|].
    unfold logInfof. cbn [logs applied]. split; [reflexivity|]. exists []. split; reflexivity.
Qed.

Lemma loopBody_fewer (ok : bool) (g : Graph) (curr : N) (r : Run W) :
  In curr (Ready g) ->
  (pendingCount (snd (fst (loopBody app LocalRoot ok g curr r))) < pendingCount g)%nat.
Proof.
  intros Hin. destruct (loopBody_cases ok g curr r) as (e & r' & _ & -> & _).
  cbn [fst snd]. destruct e; [now apply MarkFailure_fewer|now apply Mark_fewer].
Qed.

Lemma loopBody_wellFormed (ok : bool) (g : Graph) (curr : N) (r : Run W) :
  wellFormed g = true ->
  wellFormed (snd (fst (loopBody app LocalRoot ok g curr r))) = true.
Proof.
  intros Hwf. destruct (loopBody_cases ok g curr r) as (e & r' & _ & -> & _).
  cbn [fst snd]. destruct e; [now apply MarkFailure_wellFormed|now apply Mark_wellFormed].
Qed.

(** The loop ends: its fuel is never used up. *)
Lemma applyLoop_total : forall fuel ok g (r : Run W),
  (pendingCount g < fuel)%nat ->
  exists out, applyLoop app ctx LocalRoot fuel ok g r = Some out.
Proof.
  induction fuel as [|fuel IH]; intros ok g r Hlt; [lia|]. simpl.
  destruct (Done g); [eauto|].
  destruct (Ready g) as [|curr rest] eqn:Er; [eauto|].
  destruct (Err_ ctx (world (host r))); [eauto|].
  pose proof (loopBody_fewer ok g curr r) as Hf.
  destruct (loopBody app LocalRoot ok g curr r) as [[ok' g'] r'].
  cbn [fst snd] in Hf. apply IH.
  assert (In curr (Ready g)) by (rewrite Er; now left).
  specialize (Hf H). lia.
Qed.

Lemma applyCatalog_total (g : Graph) (r : Run W) :
  exists out, applyCatalog app ctx LocalRoot g r = Some out.
Proof. apply applyLoop_total. lia. Qed.

Lemma markNode_other (id : N) (n : node) : nodeID n <> id -> markNode id n = n.
Proof. unfold markNode. intros H. apply N.eqb_neq in H. now rewrite H. Qed.

Lemma failNode_other (g : Graph) (id : N) (n : node) :
  nodeID n <> id -> status n <> pending -> failNode g id n = n.
Proof.
  unfold failNode, toSkip. intros H Hp. apply N.eqb_neq in H. rewrite H.
  destruct (isPending n) eqn:E; [|reflexivity].
  apply isPending_status in E. contradiction.
Qed.

(** An iteration on a ready handle keeps the graph and the trace
    consistent, and keeps the resources of the graph. *)
Lemma loopBody_consistent (ok : bool) (g : Graph) (curr : N) (r : Run W) :
  consistent g ok r -> In curr (Ready g) ->
  consistent (snd (fst (loopBody app LocalRoot ok g curr r)))
             (fst (fst (loopBody app LocalRoot ok g curr r)))
             (snd (loopBody app LocalRoot ok g curr r))
  /\ map res (snd (fst (loopBody app LocalRoot ok g curr r))) = map res g.
Proof.
  intros (Hnd & Hap & Hdone & Hfail & Hok & Hbad) Hr.
  apply Ready_pending in Hr. destruct Hr as (nc & Hnc & Hpc & Hidc).
  apply isPending_status in Hpc.
  destruct (loopBody_cases ok g curr r) as (e & r' & _ & -> & Ha & _).
  cbn [fst snd].
  assert (Hold : forall id e0, In (id, e0) (applied r) ->
            exists n, In n g /\ nodeID n = id /\ nodeID n <> curr /\
              status n <> pending /\
              status n = match e0 with None => done | Some _ => failed end).
  { intros id e0 Hin. destruct (Hap id e0 Hin) as (n & Hn & Hid & Hst).
    exists n. repeat split; try assumption.
    - intros E. assert (n = nc) by (apply (same_ID g); congruence).
      subst n. rewrite Hpc in Hst. destruct e0; discriminate.
    - rewrite Hst. destruct e0; discriminate. }
  destruct e as [err|].
  - (* the executor failed *)
    rewrite MarkFailure_map. split; [|apply restatus_res, failNode_res].
    unfold consistent. rewrite restatus_IDs by apply failNode_res.
    split; [assumption|]. rewrite Ha. repeat split.
    + intros id e0 Hin. apply in_app_or in Hin. destruct Hin as [Hin|[Hin|[]]].
      * destruct (Hold id e0 Hin) as (n & Hn & Hid & Hne & Hnp & Hst).
        exists n. split; [|auto]. rewrite <- (failNode_other g curr n Hne Hnp).
        now apply in_map.
      * injection Hin as <- <-. exists (failNode g curr nc).
        split; [now apply in_map|].
        unfold failNode. apply N.eqb_eq in Hidc. rewrite Hidc.
        split; [now apply N.eqb_eq|reflexivity].
    + intros n' Hin Hst. apply in_map_iff in Hin. destruct Hin as (n & <- & Hn).
      apply in_or_app. left. unfold failNode in *.
      destruct (N.eqb (nodeID n) curr); [discriminate|].
      destruct (toSkip g curr n); [discriminate|]. auto.
    + intros n' Hin Hst. apply in_map_iff in Hin. destruct Hin as (n & <- & Hn).
      rewrite restatus_ID by apply failNode_res. unfold failNode in Hst.
      destruct (N.eqb (nodeID n) curr) eqn:E.
      * apply N.eqb_eq in E. rewrite E. exists err. apply in_or_app. right. now left.
      * destruct (toSkip g curr n); [discriminate|].
        destruct (Hfail n Hn Hst) as [e1 He1]. exists e1. apply in_or_app. now left.
    + discriminate.
    + intros _. exists curr, err. apply in_or_app. right. now left.
  - (* the executor succeeded *)
    rewrite Mark_map. split; [|apply restatus_res, markNode_res].
    unfold consistent. rewrite restatus_IDs by apply markNode_res.
    split; [assumption|]. rewrite Ha. repeat split.
    + intros id e0 Hin. apply in_app_or in Hin. destruct Hin as [Hin|[Hin|[]]].
      * destruct (Hold id e0 Hin) as (n & Hn & Hid & Hne & Hnp & Hst).
        exists n. split; [|auto]. rewrite <- (markNode_other curr n Hne).
        now apply in_map.
      * injection Hin as <- <-. exists (markNode curr nc).
        split; [now apply in_map|].
        unfold markNode. apply N.eqb_eq in Hidc. rewrite Hidc.
        split; [now apply N.eqb_eq|reflexivity].
    + intros n' Hin Hst. apply in_map_iff in Hin. destruct Hin as (n & <- & Hn).
      rewrite restatus_ID by apply markNode_res. unfold markNode in Hst.
      destruct (N.eqb (nodeID n) curr) eqn:E.
      * apply N.eqb_eq in E. rewrite E. apply in_or_app. right. now left.
      * apply in_or_app. left. auto.
    + intros n' Hin Hst. apply in_map_iff in Hin. destruct Hin as (n & <- & Hn).
      rewrite restatus_ID by apply markNode_res. unfold markNode in Hst.
      destruct (N.eqb (nodeID n) curr); [discriminate|].
      destruct (Hfail n Hn Hst) as [e1 He1]. exists e1. apply in_or_app. now left.
    + intros Ht n' Hin. apply in_map_iff in Hin. destruct Hin as (n & <- & Hn).
      unfold markNode. destruct (N.eqb (nodeID n) curr); [now right|auto].
    + intros Hf. destruct (Hbad Hf) as (id & e1 & He1).
      exists id, e1. apply in_or_app. now left.
Qed.

Lemma applyLoop_consistent : forall fuel ok g (r : Run W) err g' r',
  consistent g ok r ->
  applyLoop app ctx LocalRoot fuel ok g r = Some (err, g', r') ->
  map res g' = map res g /\
  exists ok', consistent g' ok' r' /\ ending ctx err ok' g' r'.
Proof.
  induction fuel as [|fuel IH]; intros ok g r err g' r' Hc H; simpl in H; [discriminate|].
  destruct (Done g) eqn:Hd.
  - injection H as <- <- <-. split; [reflexivity|]. exists ok. split; [assumption|].
    destruct ok; [left|right; left]; auto.
  - destruct (Ready g) as [|curr rest] eqn:Er.
    + injection H as <- <- <-. split; [reflexivity|]. exists ok. split; [assumption|].
      right; right; left. auto.
    + destruct (Err_ ctx (world (host r))) as [c|] eqn:Ec.
      * injection H as <- <- <-. split; [reflexivity|]. exists ok. split; [assumption|].
        right; right; right. eauto.
      * assert (Hin : In curr (Ready g)) by (rewrite Er; now left).
        destruct (loopBody_consistent ok g curr r Hc Hin) as [Hc' Hres].
        destruct (loopBody app LocalRoot ok g curr r) as [[ok1 g1] r1].
        cbn [fst snd] in *. destruct (IH _ _ _ _ _ _ Hc' H) as [Hres' Hend].
        split; [congruence|assumption].
Qed.

Lemma start_consistent (g : Graph) (w : W) :
  NoDup (map nodeID g) -> (forall n, In n g -> status n = pending) ->
  consistent g true (start w).
Proof.
  intros Hnd Hp. unfold consistent, start. cbn [applied]. repeat split.
  - assumption.
  - intros id e [].
  - intros n Hin Hs. rewrite (Hp n Hin) in Hs. discriminate.
  - intros n Hin Hs. rewrite (Hp n Hin) in Hs. discriminate.
  - intros _ n Hin. left. auto.
  - discriminate.
Qed.

(** From a well-formed graph the loop never ends with the internal error,
    and the graph stays well formed. *)
Lemma applyLoop_wellFormed : forall fuel ok g (r : Run W) err g' r',
  wellFormed g = true ->
  applyLoop app ctx LocalRoot fuel ok g r = Some (err, g', r') ->
  wellFormed g' = true /\
  (err = None \/ err = Some notClean \/ exists c, err = Some (contextError c)).
Proof.
  induction fuel as [|fuel IH]; intros ok g r err g' r' Hwf H; simpl in H; [discriminate|].
  destruct (Done g) eqn:Hd.
  - injection H as <- <- <-. split; [assumption|]. destruct ok; auto.
  - pose proof (Ready_nonempty g Hwf Hd) as Hne.
    destruct (Ready g) as [|curr rest]; [congruence|].
    destruct (Err_ ctx (world (host r))) as [c|].
    + injection H as <- <- <-. split; [assumption|]. right; right. eauto.
    + pose proof (loopBody_wellFormed ok g curr r Hwf) as Hwf'.
      destruct (loopBody app LocalRoot ok g curr r) as [[ok1 g1] r1].
      cbn [fst snd] in Hwf'. eapply IH; eassumption.
Qed.

(** [Apply] never returns the internal error: the graph of a catalog
    always has a ready node while it is not done. *)
Lemma Apply_never_stuck (c : Catalog) (w : W) err og r :
  Apply app ctx LocalRoot c w = Some (err, og, r) ->
  (exists g, og = Some g) -> err <> Some (toError nothingToDo).
Proof.
  unfold Apply. destruct (New (orZero [] (Resources c))) as [g|e] eqn:En.
  - destruct (New_Ok _ g En) as [_ Hwf].
    destruct (applyCatalog app ctx LocalRoot g (start w)) as [[[e1 g1] r1]|] eqn:Hrun;
      [|discriminate].
    unfold applyCatalog in Hrun.
    destruct (applyLoop_wellFormed _ _ _ _ _ _ _ Hwf Hrun) as [_ Hend].
    intros H _. destruct Hend as [->|[->|[k ->]]]; injection H as <- _ _; discriminate.
  - intros H [g Hg]. injection H as _ <- _. discriminate.
Qed.

(** C9: the loop looks at the context only when there is a resource to
    start.  On a graph that is done the loop returns [nil], or the summary
    error when a resource has failed, whatever [ctx.Err()] is; so
    [applyCatalog] on such a graph and [Apply] on an empty catalog return
    [nil] even under a cancelled context.  And on a graph that is not done
    and has nothing ready the loop returns the internal error, again
    whatever [ctx.Err()] is: [Ready] is looked at before the context. *)
Theorem applyLoop_done_before_cancellation :
  (forall fuel ok g (r : Run W), Done g = true ->
     applyLoop app ctx LocalRoot (S fuel) ok g r
     = Some (if ok then None else Some notClean, g, r))
  /\ (forall g (r : Run W), Done g = true ->
        applyCatalog app ctx LocalRoot g r = Some (None, g, r))
  /\ (forall w, Apply app ctx LocalRoot (catalogOf []) w = Some (None, Some [], start w))
  /\ (forall fuel ok g (r : Run W), Done g = false -> Ready g = [] ->
        applyLoop app ctx LocalRoot (S fuel) ok g r = Some (Some nothingToDo, g, r)).
Proof.
  split; [|split; [|split]].
  - intros fuel ok g r Hd. simpl. now rewrite Hd.
  - intros g r Hd. unfold applyCatalog. simpl. now rewrite Hd.
  - intros w. reflexivity.
  - intros fuel ok g r Hd Hr. simpl. now rewrite Hd, Hr.
Qed.

(** C2: on the graph of a catalog (a well-formed graph) that is not done,
    a loop that finds the context cancelled returns the error of the
    context at once: the graph and the state of the run stay as they are,
    so nothing is logged and no executor is called.  And when the context
    is not yet cancelled at the start of an iteration but is after it,
    with the graph still not done, the loop returns the error of the
    context right after this iteration: exactly one executor has been
    called, and if it succeeded its resource is logged as being applied
    and marked done. *)
Theorem applyLoop_cancelled (g : Graph) :
  wellFormed g = true -> Done g = false ->
  (forall fuel ok (r : Run W) c,
     Err_ ctx (world (host r)) = Some c ->
     applyLoop app ctx LocalRoot (S fuel) ok g r = Some (Some (contextError c), g, r))
  /\
  (forall fuel ok (r : Run W) c curr rest,
     Ready g = curr :: rest ->
     Err_ ctx (world (host r)) = None ->
     Done (snd (fst (loopBody app LocalRoot ok g curr r))) = false ->
     Err_ ctx (world (host (snd (loopBody app LocalRoot ok g curr r)))) = Some c ->
     applyLoop app ctx LocalRoot (S (S fuel)) ok g r
     = Some (Some (contextError c),
             snd (fst (loopBody app LocalRoot ok g curr r)),
             snd (loopBody app LocalRoot ok g curr r))
     /\ exists e,
          applied (snd (loopBody app LocalRoot ok g curr r)) = applied r ++ [(curr, e)] /\
          (e = None ->
           snd (fst (loopBody app LocalRoot ok g curr r)) = Mark g curr /\
           logs (snd (loopBody app LocalRoot ok g curr r))
           = logs r ++ [LogInfo ("applying: " ++ formatResource (Resource g curr))])).
Proof.
  intros Hwf Hd.
  assert (A : forall g0, wellFormed g0 = true -> Done g0 = false ->
    forall fuel ok (r : Run W) c, Err_ ctx (world (host r)) = Some c ->
    applyLoop app ctx LocalRoot (S fuel) ok g0 r = Some (Some (contextError c), g0, r)).
  { intros g0 Hwf0 Hd0 fuel ok r c Hc. simpl. rewrite Hd0.
    pose proof (Ready_nonempty g0 Hwf0 Hd0) as Hne.
    destruct (Ready g0); [congruence|]. now rewrite Hc. }
  split; [exact (A g Hwf Hd)|].
  intros fuel ok r c curr rest Hr Hc Hd' Hc'. split.
  - pose proof (loopBody_wellFormed ok g curr r Hwf) as Hwf'.
    change (applyLoop app ctx LocalRoot (S (S fuel)) ok g r)
      with (if Done g then Some (if ok then None else Some notClean, g, r)
            else match Ready g with
                 | [] => Some (Some nothingToDo, g, r)
                 | curr :: _ =>
                     match Err_ ctx (world (host r)) with
                     | Some c => Some (Some (contextError c), g, r)
                     | None =>
                         let '(ok', g', r') := loopBody app LocalRoot ok g curr r in
                         applyLoop app ctx LocalRoot (S fuel) ok' g' r'
                     end
                 end).
    rewrite Hd, Hr, Hc.
    destruct (loopBody app LocalRoot ok g curr r) as [[ok1 g1] r1].
    cbn [fst snd] in *. apply A; assumption.
  - destruct (loopBody_cases ok g curr r) as (e & r' & _ & -> & Ha & more & Hl & Hm).
    cbn [fst snd]. exists e. split; [assumption|].
    intros ->. split; [reflexivity|]. now rewrite Hl, Hm.
Qed.

(** A dependency path that [dependsOn] finds is a chain of dependencies
    of the resources of the graph. *)
Lemma dependsOn_reaches (g : Graph) (id : N) :
  forall k a, dependsOn k g a id = true -> reaches (map res g) a id.
Proof.
  induction k as [|k IH]; intros a H; simpl in H; [discriminate|].
  destruct (lookup g a) as [n|] eqn:Hl; [|discriminate].
  apply lookup_Some in Hl. destruct Hl as [Hin <-].
  apply existsb_exists in H. destruct H as [d [Hd H]].
  assert (Hr : In (res n) (map res g)) by now apply in_map.
  apply orb_true_iff in H. destruct H as [H|H].
  - apply N.eqb_eq in H. subst d. now apply (reaches_dep (map res g) (res n) id).
  - apply (reaches_via (map res g) (res n) d id); auto.
Qed.

(** Only what lies behind a failure is skipped: an iteration keeps every
    skipped node behind a resource whose executor returned an error. *)
Lemma loopBody_skipped (ok : bool) (g : Graph) (curr : N) (r : Run W) :
  (forall n, In n g -> status n = skipped ->
     exists id e, In (id, Some e) (applied r) /\ reaches (map res g) (nodeID n) id) ->
  forall n, In n (snd (fst (loopBody app LocalRoot ok g curr r))) -> status n = skipped ->
    exists id e,
      In (id, Some e) (applied (snd (loopBody app LocalRoot ok g curr r))) /\
      reaches (map res (snd (fst (loopBody app LocalRoot ok g curr r)))) (nodeID n) id.
Proof.
  intros Hs. destruct (loopBody_cases ok g curr r) as (e & r' & _ & -> & Ha & _).
  cbn [fst snd]. rewrite Ha. intros n' Hin Hst. destruct e as [err|].
  - rewrite MarkFailure_map in *. rewrite restatus_res by apply failNode_res.
    apply in_map_iff in Hin. destruct Hin as (n & <- & Hn).
    rewrite restatus_ID by apply failNode_res. unfold failNode in Hst.
    destruct (N.eqb (nodeID n) curr); [discriminate|].
    destruct (toSkip g curr n) eqn:Et.
    + exists curr, err. split; [apply in_or_app; right; now left|].
      unfold toSkip in Et. apply andb_true_iff in Et. destruct Et as [_ Et].
      eapply dependsOn_reaches. eassumption.
    + destruct (Hs n Hn Hst) as (id & e1 & He1 & Hr).
      exists id, e1. split; [apply in_or_app; now left|assumption].
  - rewrite Mark_map in *. rewrite restatus_res by apply markNode_res.
    apply in_map_iff in Hin. destruct Hin as (n & <- & Hn).
    rewrite restatus_ID by apply markNode_res. unfold markNode in Hst.
    destruct (N.eqb (nodeID n) curr); [discriminate|].
    destruct (Hs n Hn Hst) as (id & e1 & He1 & Hr).
    exists id, e1. split; [apply in_or_app; now left|assumption].
Qed.

Lemma applyLoop_skipped : forall fuel ok g (r : Run W) err g' r',
  (forall n, In n g -> status n = skipped ->
     exists id e, In (id, Some e) (applied r) /\ reaches (map res g) (nodeID n) id) ->
  applyLoop app ctx LocalRoot fuel ok g r = Some (err, g', r') ->
  forall n, In n g' -> status n = skipped ->
    exists id e, In (id, Some e) (applied r') /\ reaches (map res g') (nodeID n) id.
Proof.
  induction fuel as [|fuel IH]; intros ok g r err g' r' Hs H; simpl in H; [discriminate|].
  destruct (Done g).
  - injection H as _ <- <-. assumption.
  - destruct (Ready g) as [|curr rest].
    + injection H as _ <- <-. assumption.
    + destruct (Err_ ctx (world (host r))).
      * injection H as _ <- <-. assumption.
      * pose proof (loopBody_skipped ok g curr r Hs) as Hs'.
        destruct (loopBody app LocalRoot ok g curr r) as [[ok1 g1] r1].
        cbn [fst snd] in Hs'. eapply IH; eassumption.
Qed.

(** One iteration whose executor returns an error: the loop does not
    return; it goes on with the flag cleared and the graph that
    [MarkFailure] leaves. *)
Lemma applyLoop_goes_on (fuel : nat) (ok : bool) (g : Graph) (r : Run W)
  (curr : N) (rest : list N) (e : error) :
  Done g = false -> Ready g = curr :: rest -> Err_ ctx (world (host r)) = None ->
  fst (applyResource app LocalRoot (Resource g curr)
         (host (logInfof app ("applying: " ++ formatResource (Resource g curr)) r)))
  = Some e ->
  applyLoop app ctx LocalRoot (S fuel) ok g r
  = applyLoop app ctx LocalRoot fuel false (snd (MarkFailure g curr))
      (snd (loopBody app LocalRoot ok g curr r)).
Proof.
  intros Hd Hr Hc He. simpl. rewrite Hd, Hr, Hc.
  destruct (loopBody_cases ok g curr r) as (e0 & r' & E0 & E & _).
  rewrite E. cbn [snd]. rewrite <- E0 in He. rewrite He. reflexivity.
Qed.

(** C1: [Apply] always returns.  It returns [nil] iff every resource of
    the catalog has been applied with the result [nil].  An executor that
    returns an error does not end the loop: the loop goes on with the
    not-clean flag set and the graph as [MarkFailure] leaves it.  Once a
    graph is built the loop stops early for one reason only, a cancelled
    context; in every other run the graph is done at the end, every
    resource has been applied or lies behind a resource that failed (only
    those are skipped), and [Apply] returns the summary error "not all
    resources applied cleanly" if some executor returned an error and
    [nil] if none did.  In no case is the error of a resource the result:
    after a failure the result is the summary error or the error of the
    context. *)
Theorem Apply_clean (c : Catalog) (w : W) :
  (exists err og r,
    Apply app ctx LocalRoot c w = Some (err, og, r) /\
    (err = None <->
     forall x, In x (orZero [] (Resources c)) -> In (ID x, None) (applied r)) /\
    (forall g', og = Some g' -> Done g' = true ->
       ((exists id e, In (id, Some e) (applied r)) -> err = Some (toError notClean)) /\
       ((forall id e, ~ In (id, Some e) (applied r)) -> err = None) /\
       (forall n, In n g' ->
          In (nodeID n, None) (applied r) \/
          (exists e, In (nodeID n, Some e) (applied r)) \/
          status n = skipped)) /\
    ((exists id e, In (id, Some e) (applied r)) ->
       err = Some (toError notClean) \/
       exists k, err = Some (toError (contextError k))) /\
    (forall g', og = Some g' ->
       Done g' = true \/
       exists k, err = Some (toError (contextError k)) /\
                 Err_ ctx (world (host r)) = Some k) /\
    (forall g' n, og = Some g' -> In n g' -> status n = skipped ->
       exists id e, In (id, Some e) (applied r) /\
                    reaches (orZero [] (Resources c)) (nodeID n) id) /\
    (forall g', og = Some g' ->
       (forall k, err <> Some (toError (contextError k))) ->
       forall x, In x (orZero [] (Resources c)) ->
         (exists e, In (ID x, e) (applied r)) \/
         (exists id e, In (id, Some e) (applied r) /\
                       reaches (orZero [] (Resources c)) (ID x) id)))
  /\
  (forall fuel ok g (r : Run W) curr rest e,
     Done g = false -> Ready g = curr :: rest -> Err_ ctx (world (host r)) = None ->
     fst (applyResource app LocalRoot (Resource g curr)
            (host (logInfof app ("applying: " ++ formatResource (Resource g curr)) r)))
     = Some e ->
     applyLoop app ctx LocalRoot (S fuel) ok g r
     = applyLoop app ctx LocalRoot fuel false (snd (MarkFailure g curr))
         (snd (loopBody app LocalRoot ok g curr r))).
Proof.
  split; [|exact applyLoop_goes_on].
  unfold Apply. set (rs := orZero [] (Resources c)).
  destruct (New rs) as [g|e] eqn:En.
  - destruct (New_Ok rs g En) as [Hg Hwf].
    pose proof Hwf as Hwf0.
    apply wellFormed_parts in Hwf. destruct Hwf as [Hnd _].
    apply nodupIDs_NoDup in Hnd.
    assert (Hpend : forall n, In n g -> status n = pending).
    { intros n Hin. rewrite Hg in Hin.
      apply in_map_iff in Hin. destruct Hin as [x [<- _]]. reflexivity. }
    assert (Hc : consistent g true (start w)) by now apply start_consistent.
    assert (Hres : map res g = rs).
    { rewrite Hg, map_map. apply map_id. }
    assert (Hsk0 : forall n, In n g -> status n = skipped ->
              exists id e, In (id, Some e) (applied (start w)) /\
                           reaches (map res g) (nodeID n) id).
    { intros n Hin Hst. rewrite (Hpend n Hin) in Hst. discriminate. }
    destruct (applyCatalog_total g (start w)) as [[[err g'] r] Hrun].
    rewrite Hrun. unfold applyCatalog in Hrun.
    destruct (applyLoop_consistent _ _ _ _ _ _ _ Hc Hrun) as [Hres' [ok' [Hc' Hend]]].
    destruct (applyLoop_wellFormed _ _ _ _ _ _ _ Hwf0 Hrun) as [_ Hshape].
    pose proof (applyLoop_skipped _ _ _ _ _ _ _ Hsk0 Hrun) as Hskip.
    rewrite Hres', Hres in Hskip.
    destruct Hc' as (Hnd' & Hap & Hdone & Hfail & Hok & Hbad).
    assert (Hall : (forall x, In x rs -> In (ID x, None) (applied r)) ->
                   forall n, In n g' -> status n = done).
    { intros Hx n Hin.
      assert (Hrn : In (res n) rs).
      { rewrite <- Hres, <- Hres'. now apply in_map. }
      destruct (Hap _ _ (Hx _ Hrn)) as (m & Hm & Hid & Hst).
      assert (m = n) by (apply (same_ID g'); assumption). now subst m. }
    assert (Hnodes : forall x, In x rs -> exists n, In n g' /\ res n = x).
    { intros x Hx. rewrite <- Hres, <- Hres' in Hx. apply in_map_iff in Hx.
      destruct Hx as [n [E Hn]]. eauto. }
    assert (Hnotdone : Done g' = false ->
                       ~ (forall x, In x rs -> In (ID x, None) (applied r))).
    { intros Hd Hx. apply Done_false in Hd. destruct Hd as [n [Hn Hp]].
      apply isPending_status in Hp. rewrite (Hall Hx n Hn) in Hp. discriminate. }
    assert (Hfailed : (exists id e0, In (id, Some e0) (applied r)) ->
                      ~ (forall x, In x rs -> In (ID x, None) (applied r))).
    { intros (id & e0 & Hin) Hx. destruct (Hap _ _ Hin) as (n & Hn & _ & Hst).
      rewrite (Hall Hx n Hn) in Hst. discriminate. }
    assert (Hclean : ok' = true -> forall id e0, ~ In (id, Some e0) (applied r)).
    { intros Ht id e0 Hin. destruct (Hap _ _ Hin) as (n & Hn & _ & Hst).
      destruct (Hok Ht n Hn) as [X|X]; rewrite X in Hst; discriminate. }
    assert (Hcover : Done g' = true -> forall x, In x rs ->
              (exists e0, In (ID x, e0) (applied r)) \/
              (exists id e0, In (id, Some e0) (applied r) /\ reaches rs (ID x) id)).
    { intros Hd x Hx. destruct (Hnodes x Hx) as (n & Hn & <-).
      pose proof (Done_true g' n Hd Hn) as Hp.
      destruct (status n) eqn:Es; [congruence| | |].
      - left. exists None. now apply Hdone.
      - left. destruct (Hfail n Hn Es) as [e0 He0]. exists (Some e0). exact He0.
      - right. exact (Hskip n Hn Es). }
    destruct Hend as [(-> & -> & Hd) | [(-> & -> & Hd) | [(-> & Hd) | (k & -> & Hd & Hk)]]].
    + (* nil *)
      exists None, (Some g'), r. split; [reflexivity|].
      split; [|split; [|split; [|split; [|split]]]].
      * split; [|reflexivity]. intros _ x Hx.
        destruct (Hnodes x Hx) as (n & Hn & <-). apply Hdone; [assumption|].
        destruct (Hok eq_refl n Hn) as [X|X]; [|assumption].
        exfalso. exact (Done_true g' n Hd Hn X).
      * intros g0 E _. injection E as <-. split; [|split].
        -- intros (id & e0 & Hin). exfalso. exact (Hclean eq_refl id e0 Hin).
        -- reflexivity.
        -- intros n Hn. left. apply Hdone; [assumption|].
           destruct (Hok eq_refl n Hn) as [X|X]; [|assumption].
           exfalso. exact (Done_true g' n Hd Hn X).
      * intros (id & e0 & Hin). exfalso. exact (Hclean eq_refl id e0 Hin).
      * intros g0 E. injection E as <-. now left.
      * intros g0 n E. injection E as <-. apply Hskip.
      * intros g0 _ _. now apply Hcover.
    + (* the summary error *)
      exists (Some (toError notClean)), (Some g'), r.
      split; [reflexivity|]. split; [|split; [|split; [|split; [|split]]]].
      * split; [discriminate|]. intros Hx. exfalso.
        exact (Hfailed (Hbad eq_refl) Hx).
      * intros g0 E _. injection E as <-. split; [|split].
        -- reflexivity.
        -- intros Hno. destruct (Hbad eq_refl) as (id & e0 & Hin).
           exfalso. exact (Hno id e0 Hin).
        -- intros n Hn. pose proof (Done_true g' n Hd Hn) as Hp.
           destruct (status n) eqn:Es; [congruence| | |].
           ++ left. now apply Hdone.
           ++ right. left. now apply Hfail.
           ++ right. right. reflexivity.
      * intros _. left. reflexivity.
      * intros g0 E. injection E as <-. now left.
      * intros g0 n E. injection E as <-. apply Hskip.
      * intros g0 _ _. now apply Hcover.
    + (* the internal error: not from a well-formed graph *)
      exfalso. destruct Hshape as [X|[X|[k X]]]; discriminate X.
    + (* the error of the context *)
      exists (Some (toError (contextError k))), (Some g'), r.
      split; [reflexivity|]. split; [|split; [|split; [|split; [|split]]]].
      * split; [discriminate|]. intros Hx. exfalso. exact (Hnotdone Hd Hx).
      * intros g0 E Hd0. injection E as <-. congruence.
      * intros _. right. exists k. reflexivity.
      * intros g0 _. right. exists k. split; [reflexivity|assumption].
      * intros g0 n E. injection E as <-. apply Hskip.
      * intros g0 _ Hno. exfalso. exact (Hno k eq_refl).
  - (* no graph *)
    exists (Some (toError e)), None, (start w). split; [reflexivity|].
    split; [|split; [|split; [|split; [|split]]]].
    + split; [discriminate|]. intros Hx.
      destruct rs as [|x rs']; [discriminate En|].
      destruct (Hx x (or_introl eq_refl)).
    + intros g' E. discriminate.
    + intros (id & e0 & []).
    + intros g' E. discriminate.
    + intros g' n E. discriminate.
    + intros g' E. discriminate.
Qed.

End DriverTheory.


(** *** The driver on the scripted host *)

(** An empty catalog under a context that is cancelled from the start:
    [Apply] returns [nil]; and a graph with nothing ready yields the
    internal error under the same context. *)
Lemma applyLoop_done_before_cancellation_witness :
  Err_ scriptedContext cancelledAtStart = Some Canceled /\
  Apply scripted scriptedContext "/" (catalogOf []) cancelledAtStart
  = Some (None, Some [], start cancelledAtStart) /\
  applyLoop scripted scriptedContext "/" 1 true stuckGraph (start cancelledAtStart)
  = Some (Some nothingToDo, stuckGraph, start cancelledAtStart).
Proof.
  split; [reflexivity|].
  destruct (applyLoop_done_before_cancellation scripted scriptedContext "/")
    as [_ [_ [H3 H4]]].
  split; [exact (H3 cancelledAtStart)|].
  exact (H4 0%nat true stuckGraph (start cancelledAtStart) eq_refl eq_refl).
Defined.

(** Scenario 6: of five resources the first is logged and marked done,
    then the loop returns [Canceled]; no other executor is called. *)
Lemma applyLoop_cancelled_witness :
  New fiveResources = Ok (pendingGraph fiveResources) /\
  applyCatalog scripted scriptedContext "/" (pendingGraph fiveResources)
    (start cancelAfterFirst)
  = Some (Some (contextError Canceled),
          Mark (pendingGraph fiveResources) 1,
          {| host := {| world := {| replies := []; ticks := 1; cancelAt := Some 1%nat |};
                        calls := [] |};
             logs := [LogInfo "applying: id=1"];
             applied := [(1%N, None)] |}) /\
  map status (Mark (pendingGraph fiveResources) 1)
  = [done; pending; pending; pending; pending].
Proof.
  split; [reflexivity|]. split; [|reflexivity].
  destruct (applyLoop_cancelled scripted scriptedContext "/" (pendingGraph fiveResources)
              eq_refl eq_refl) as [_ H].
  exact (proj1 (H 4%nat true (start cancelAfterFirst) Canceled 1%N [2; 3; 4; 5]%N
                  eq_refl eq_refl eq_refl eq_refl)).
Defined.

(** Two resources that do not depend on each other, the first of which
    fails: the loop goes on and applies the second, and [Apply] returns
    the summary error. *)
Lemma Apply_clean_witness :
  Apply scripted scriptedContext "/" (catalogOf independentResources)
    (script [ReplyErr (Some permissionDenied)])
  = Some (Some (toError notClean), Some independentGraph, independentRun) /\
  forall x, In x independentResources ->
    (exists e, In (ID x, e) (applied independentRun)) \/
    (exists id e, In (id, Some e) (applied independentRun) /\
                  reaches independentResources (ID x) id).
Proof.
  assert (Hrun : Apply scripted scriptedContext "/" (catalogOf independentResources)
                   (script [ReplyErr (Some permissionDenied)])
                 = Some (Some (toError notClean), Some independentGraph, independentRun))
    by (vm_compute; reflexivity).
  split; [exact Hrun|].
  destruct (Apply_clean scripted scriptedContext "/" (catalogOf independentResources)
              (script [ReplyErr (Some permissionDenied)])) as [H _].
  destruct H as (err & og & r & E & _ & _ & _ & _ & _ & Hcover).
  rewrite Hrun in E. injection E as <- <- <-.
  apply (Hcover independentGraph eq_refl). intros k. discriminate.
Defined.

(** Scenario 2 run: the first resource fails, the two that depend on it
    are skipped, and [Apply] returns the summary error. *)
Example Apply_skip_on_failure :
  Apply scripted scriptedContext "/" (catalogOf skipResources)
    (script [ReplyErr (Some permissionDenied)])
  = Some (Some (toError notClean),
          Some [ {| res := fileResource 1 [] "/root/forbidden"
                             (File_Which_plain (Some (Ok "x"%string)));
                    status := failed |};
                 {| res := execResource 2 [1%N] echoCommand Exec_condition_Which_always;
                    status := skipped |};
                 {| res := noopResource 3 [2%N]; status := skipped |} ],
          {| host := {| world := {| replies := []; ticks := 4; cancelAt := None |};
                        calls := [system.CallWriteFile "/root/forbidden" "x" 438%N] |};
             logs := [LogInfo "applying: id=1";
                      LogError (mkError (Some {| refID := 1; refComment := EmptyString |})
                                        permissionDenied None);
                      LogInfo "skipping due to failure of id=1: id=2, id=3"];
             applied := [(1%N, Some permissionDenied)] |}).
Proof. vm_compute. reflexivity. Qed.

(** Scenario 1 run: a chain of two resources, applied in the order of the
    dependencies. *)
Example Apply_linear_chain :
  Apply scripted scriptedContext "/"
    (catalogOf [execResource 2 [1%N] echoCommand Exec_condition_Which_always;
                fileResource 1 [] "/tmp/a" File_Which_absent])
    (script [])
  = Some (None,
          Some [ {| res := execResource 2 [1%N] echoCommand Exec_condition_Which_always;
                    status := done |};
                 {| res := fileResource 1 [] "/tmp/a" File_Which_absent;
                    status := done |} ],
          {| host := {| world := {| replies := []; ticks := 4; cancelAt := None |};
                        calls := [system.CallRemove "/tmp/a"; system.CallRun echoCmd] |};
             logs := [LogInfo "applying: id=1"; LogInfo "applying: id=2"];
             applied := [(1%N, None); (2%N, None)] |}).
Proof. vm_compute. reflexivity. Qed.

End driver.

(** ** More on the executors *)
Module executor_facts.
Import catalog execlib.

Section Executors.

Context {W : Type}.
Variable app : Applier W.
Variable LocalRoot : string.

Ltac reply := erewrite bind_call by (cbn [world]; eassumption); cbn [world calls].

(** *** A small logic of traces *)

Lemma traces_ret {A : Type} (P : system.Call -> Prop) (k : nat) (a : A) :
  traces P k (@ret W A a).
Proof.
  intros h. exists []. cbn. rewrite app_nil_r. repeat split; [constructor|lia].
Qed.

Lemma traces_call {A : Type} (P : system.Call -> Prop) (k : nat)
  (c : system.Call) (op : W -> A * W) :
  P c -> traces P (S k) (call c op).
Proof.
  intros Hc h. exists [c]. rewrite call_run. cbn.
  repeat split; [constructor; [assumption|constructor]|lia].
Qed.

Lemma traces_bind {A B : Type} (P : system.Call -> Prop) (k : nat)
  (c : system.Call) (op : W -> A * W) (f : A -> M W B) :
  P c -> (forall a, traces P k (f a)) -> traces P (S k) (bind (call c op) f).
Proof.
  intros Hc Hf h. rewrite bind_run, call_run. cbn [fst snd].
  destruct (Hf (fst (op (world h)))
               {| world := snd (op (world h)); calls := calls h ++ [c] |})
    as (suffix & E & HP & Hlen).
  exists (c :: suffix). rewrite E. cbn [calls]. rewrite <- app_assoc.
  repeat split; [constructor; assumption|cbn; lia].
Qed.

Lemma traces_weaken {A : Type} (P Q : system.Call -> Prop) (k k' : nat) (m : M W A) :
  (forall c, P c -> Q c) -> (k <= k')%nat -> traces P k m -> traces Q k' m.
Proof.
  intros HPQ Hk Hm h. destruct (Hm h) as (suffix & E & HP & Hlen).
  exists suffix. repeat split; [assumption| |lia].
  eapply Forall_impl; [|eassumption]. exact HPQ.
Qed.

(** Structural proof of a [traces] goal. *)
Ltac trace :=
  repeat first
    [ apply traces_ret
    | apply traces_bind; [reflexivity|intros ?]
    | apply traces_call; reflexivity
    | match goal with
      | |- traces _ _ (match ?x with _ => _ end) => destruct x
      | |- traces _ _ (if ?x then _ else _) => destruct x
      end ].

(** A file resource acts on its own path only: whatever the host
    replies, [applyFile] adds at most five calls to the trace, each of
    them a call on the path of the resource; in particular it runs no
    command and touches no other path. *)
Theorem applyFile_own_path (f : File) (path : string) :
  Path f = Ok path ->
  traces (fun c => callPath c = Some path) 5 (applyFile app f).
Proof.
  intros Hp. unfold applyFile. rewrite Hp.
  unfold Lstat, Mkdir, Symlink, Readlink, Remove, WriteFile. trace.
Qed.

(** The exec executor reaches the host through [Run] and [Lstat] only,
    with at most two calls: it creates, writes and removes nothing
    itself. *)
Theorem applyExec_runs_only (e : Exec) :
  traces (fun c => isRunOrLstat c = true) 2 (applyExec app LocalRoot e).
Proof.
  unfold applyExec, runMain. unfold Lstat, Run_. trace.
Qed.

(** *** The file executor, branch by branch *)

(** A file resource is checked before the host is touched: when the path
    cannot be read, when the sub-variant is unknown, and when the content
    of a plain file or the target of a symlink cannot be read, the
    executor fails and the host stays as it was. *)
Theorem applyFile_checks_first (f : File) (h : Host W) :
  (exists err, Path f = Err err) \/
  (exists tag, Which f = File_Which_other tag) \/
  (exists err, Which f = File_Which_plain (Some (Err err))) \/
  (exists err, Which f = File_Which_symlink (Err err)) ->
  exists e, applyFile app f h = (Some e, h).
Proof.
  unfold applyFile. intros H.
  destruct H as [[e0 E] | Hw]; [rewrite E; eexists; reflexivity|].
  destruct (Path f) as [path|e0]; [|eexists; reflexivity].
  destruct (String.eqb path EmptyString); [eexists; reflexivity|].
  destruct Hw as [[tag E] | [[e0 E] | [e0 E]]]; rewrite E; eexists; reflexivity.
Qed.

(** A plain file with content: one [WriteFile(path, content, 0666)], whose
    result is the result of the executor. *)
Theorem applyFile_plain_with_content (f : File) (path content : string) (h : Host W) :
  Path f = Ok path -> path <> EmptyString ->
  Which f = File_Which_plain (Some (Ok content)) ->
  applyFile app f h =
    (fst (system.WriteFile (System app) path content 438%N (world h)),
     {| world := snd (system.WriteFile (System app) path content 438%N (world h));
        calls := calls h ++ [system.CallWriteFile path content 438%N] |}).
Proof.
  intros Hp Hne Hw. unfold applyFile. rewrite Hp, Hw.
  apply String.eqb_neq in Hne. rewrite Hne. unfold WriteFile. apply call_run.
Qed.

(** A directory resource.  The executor calls [Mkdir(path, 0777)].  When
    that succeeds, or fails with an error that is not an exists error,
    its result is returned and nothing else is called.  When the path
    exists, [Lstat(path)] decides: a directory is a success, anything
    else the error "%s is not a directory", and an error of [Lstat] comes
    back under "determine state of %s: %v"; what is in the way is never
    removed. *)
Theorem applyFile_directory (f : File) (path : string) (h : Host W) :
  Path f = Ok path -> path <> EmptyString -> Which f = File_Which_directory ->
  let one := calls h ++ [system.CallMkdir path 511%N] in
  let two := calls h ++ [system.CallMkdir path 511%N; system.CallLstat path] in
  (forall w1, system.Mkdir (System app) path 511%N (world h) = (None, w1) ->
     applyFile app f h = (None, {| world := w1; calls := one |}))
  /\
  (forall e w1, system.Mkdir (System app) path 511%N (world h) = (Some e, w1) ->
     IsExist e = false ->
     applyFile app f h = (Some e, {| world := w1; calls := one |}))
  /\
  (forall e w1 r w2, system.Mkdir (System app) path 511%N (world h) = (Some e, w1) ->
     IsExist e = true ->
     system.Lstat (System app) path w1 = (r, w2) ->
     applyFile app f h =
       (match r with
        | Err err => Some (Errorf "determine state of %s: %v" [argString path; argError err])
        | Ok info =>
            if system.IsDir info then None
            else Some (Errorf "%s is not a directory" [argString path])
        end,
        {| world := w2; calls := two |})).
Proof.
  intros Hp Hne Hw one two.
  assert (E : applyFile app f h =
    (err <- Mkdir app path 511%N ;;
     match err with
     | None => ret None
     | Some e =>
         if negb (IsExist e) then ret (Some e)
         else
           r <- Lstat app path ;;
           match r with
           | Err err' =>
               ret (Some (Errorf "determine state of %s: %v" [argString path; argError err']))
           | Ok info =>
               if negb (system.IsDir info)
               then ret (Some (Errorf "%s is not a directory" [argString path]))
               else ret None
           end
     end) h).
  { unfold applyFile. rewrite Hp, Hw. apply String.eqb_neq in Hne. now rewrite Hne. }
  rewrite E. unfold Mkdir, Lstat. split; [|split].
  - intros w1 H1. reply. reflexivity.
  - intros e w1 H1 Hx. reply. rewrite Hx. reflexivity.
  - intros e w1 r w2 H1 Hx H2. reply. rewrite Hx. cbn [negb]. reply.
    unfold two. rewrite <- app_assoc.
    destruct r as [info|err]; [|reflexivity].
    destruct (system.IsDir info); reflexivity.
Qed.

(** An absent resource: one [Remove(path)]; the executor succeeds when the
    entry was removed and when there was none, and returns every other
    error of [Remove] as it is. *)
Theorem applyFile_absent (f : File) (path : string) (h : Host W) :
  Path f = Ok path -> path <> EmptyString -> Which f = File_Which_absent ->
  let r := system.Remove (System app) path (world h) in
  applyFile app f h =
    (match fst r with
     | None => None
     | Some e => if IsNotExist e then None else Some e
     end,
     {| world := snd r; calls := calls h ++ [system.CallRemove path] |})
  /\ (fst (applyFile app f h) = None <->
      fst r = None \/ exists e, fst r = Some e /\ IsNotExist e = true).
Proof.
  intros Hp Hne Hw r.
  assert (E : applyFile app f h =
    (match fst r with
     | None => None
     | Some e => if IsNotExist e then None else Some e
     end,
     {| world := snd r; calls := calls h ++ [system.CallRemove path] |})).
  { unfold applyFile. rewrite Hp, Hw. apply String.eqb_neq in Hne. rewrite Hne.
    unfold Remove. rewrite bind_run, call_run. cbn [fst snd]. fold r.
    destruct (fst r) as [e|]; [|reflexivity]. destruct (IsNotExist e); reflexivity. }
  split; [exact E|]. rewrite E. cbn [fst]. split.
  - destruct (fst r) as [e|]; [|auto].
    destruct (IsNotExist e) eqn:X; [|discriminate]. intros _. right. eauto.
  - intros [->|[e [-> ->]]]; reflexivity.
Qed.

(** A symlink resource never removes what is not a symlink.  When the
    first [Symlink] succeeds, or fails with an error that is not an exists
    error, its result is returned after that one call.  When the path
    exists and [Lstat] fails or reports anything but a symlink, the
    executor fails after [Symlink] and [Lstat]: there is no [Readlink],
    no [Remove] and no second [Symlink].  When [Readlink] fails, its error
    is returned as it is and nothing is removed. *)
Theorem applyFile_symlink_keeps_others (f : File) (path target : string) (h : Host W) :
  Path f = Ok path -> path <> EmptyString ->
  Which f = File_Which_symlink (Ok target) ->
  let one := calls h ++ [system.CallSymlink target path] in
  let two := calls h ++ [system.CallSymlink target path; system.CallLstat path] in
  let three := calls h ++ [system.CallSymlink target path; system.CallLstat path;
                           system.CallReadlink path] in
  (forall r w1, system.Symlink (System app) target path (world h) = (r, w1) ->
     match r with None => True | Some e => IsExist e = false end ->
     applyFile app f h = (r, {| world := w1; calls := one |}))
  /\
  (forall e w1 r w2, system.Symlink (System app) target path (world h) = (Some e, w1) ->
     IsExist e = true ->
     system.Lstat (System app) path w1 = (r, w2) ->
     match r with
     | Err _ => True
     | Ok info => N.land (system.Mode info) system.ModeType <> system.ModeSymlink
     end ->
     applyFile app f h =
       (Some (match r with
              | Err err =>
                  Errorf "determine state of %s: %v" [argString path; argError err]
              | Ok _ => Errorf "%s is not a symlink" [argString path]
              end),
        {| world := w2; calls := two |}))
  /\
  (forall e w1 info w2 err w3,
     system.Symlink (System app) target path (world h) = (Some e, w1) ->
     IsExist e = true ->
     system.Lstat (System app) path w1 = (Ok info, w2) ->
     N.land (system.Mode info) system.ModeType = system.ModeSymlink ->
     system.Readlink (System app) path w2 = (Err err, w3) ->
     applyFile app f h = (Some err, {| world := w3; calls := three |})).
Proof.
  intros Hp Hne Hw one two three.
  unfold applyFile. rewrite Hp, Hw. apply String.eqb_neq in Hne. rewrite Hne.
  unfold Symlink, Lstat, Readlink. split; [|split].
  - intros r w1 H1 Hr. reply. destruct r as [e|]; [|reflexivity].
    rewrite Hr. reflexivity.
  - intros e w1 r w2 H1 Hx H2 Hr. reply. rewrite Hx. cbn [negb]. reply.
    unfold two. rewrite <- app_assoc. destruct r as [info|err]; [|reflexivity].
    apply N.eqb_neq in Hr. rewrite Hr. reflexivity.
  - intros e w1 info w2 err w3 H1 Hx H2 Hm H3. reply. rewrite Hx. cbn [negb]. reply.
    rewrite Hm, N.eqb_refl. cbn [negb]. reply.
    unfold three. rewrite <- !app_assoc. reflexivity.
Qed.

(** *** The exec executor, condition by condition *)

(** The condition [always]: the main command is run at once.  When it
    builds, there is one [Run] of its descriptor; a failure of any kind, a
    non-zero exit among them, comes back as "command: %v" with the output
    of the command attached.  When it does not build, nothing is run. *)
Theorem applyExec_always (e : Exec) (h : Host W) :
  Condition e = Exec_condition_Which_always ->
  (forall main cmd, Command e = Ok main -> buildCommand LocalRoot main = Ok cmd ->
     let r := system.Run (System app) cmd (world h) in
     snd (applyExec app LocalRoot e h)
     = {| world := snd r; calls := calls h ++ [system.CallRun cmd] |} /\
     (snd (fst r) = None -> fst (applyExec app LocalRoot e h) = None) /\
     (forall err, snd (fst r) = Some err ->
        fst (applyExec app LocalRoot e h)
        = Some (mkError None (Errorf "command: %v" [argError err]) (Some (fst (fst r))))))
  /\
  (forall main err, Command e = Ok main -> buildCommand LocalRoot main = Err err ->
     applyExec app LocalRoot e h = (Some (Errorf "command: %v" [argError err]), h)).
Proof.
  intros Hc. unfold applyExec. rewrite Hc. split.
  - intros main cmd Hm Hb. rewrite (runMain_run app LocalRoot e main cmd h Hm Hb).
    cbn [fst snd]. split; [reflexivity|]. split.
    + intros ->. reflexivity.
    + intros err ->. reflexivity.
  - intros main err Hm Hb. unfold runMain. rewrite Hm, Hb. reflexivity.
Qed.

(** The condition [fileAbsent(path)]: the executor calls [Lstat(path)].
    When the path exists the command is skipped: [nil], and nothing is
    run.  When [Lstat] fails with a not-exist error the executor goes on
    with the main command.  Any other error of [Lstat] comes back as
    "condition: %v", and nothing is run. *)
Theorem applyExec_fileAbsent (e : Exec) (p : result string) (h : Host W) :
  Condition e = Exec_condition_Which_fileAbsent p ->
  let path := orZero EmptyString p in
  let r := system.Lstat (System app) path (world h) in
  let h1 := {| world := snd r; calls := calls h ++ [system.CallLstat path] |} in
  (forall info, fst r = Ok info -> applyExec app LocalRoot e h = (None, h1))
  /\
  (forall err, fst r = Err err -> IsNotExist err = true ->
     applyExec app LocalRoot e h = runMain app LocalRoot e h1)
  /\
  (forall err, fst r = Err err -> IsNotExist err = false ->
     applyExec app LocalRoot e h = (Some (Errorf "condition: %v" [argError err]), h1)).
Proof.
  intros Hc path r h1. unfold applyExec. rewrite Hc. unfold Lstat.
  rewrite bind_run, call_run. cbn [fst snd]. fold path. fold r. fold h1.
  split; [|split].
  - intros info ->. reflexivity.
  - intros err -> ->. reflexivity.
  - intros err -> ->. reflexivity.
Qed.

(** A condition that cannot be used stops the resource before anything is
    run: an unknown condition, and an [onlyIf] or [unless] command that
    cannot be read or does not build, give an error and leave the host as
    it was; the main command is not run either. *)
Theorem applyExec_bad_condition (e : Exec) (h : Host W) :
  (exists tag, Condition e = Exec_condition_Which_other tag) \/
  (exists c, (Condition e = Exec_condition_Which_onlyIf c \/
              Condition e = Exec_condition_Which_unless c) /\
             match c with
             | Err _ => True
             | Ok cond => exists err, buildCommand LocalRoot cond = Err err
             end) ->
  exists err, applyExec app LocalRoot e h = (Some err, h).
Proof.
  unfold applyExec. intros H.
  destruct H as [[tag E] | [c [[E | E] Hc]]]; rewrite E; [eexists; reflexivity| |];
    (destruct c as [cond|e0]; [destruct Hc as [e0 Hb]; rewrite Hb|]; eexists; reflexivity).
Qed.

(** The main command is only looked at after the condition has been run:
    with an [onlyIf] condition that exits zero, or an [unless] condition
    that exits with a non-zero status, a main command that does not build
    gives the error "command: %v" after the one [Run] of the condition. *)
Theorem applyExec_validates_main_late
  (e : Exec) (cond main : Exec_Command) (cmd : system.Cmd) (err : error) (h : Host W) :
  buildCommand LocalRoot cond = Ok cmd ->
  Command e = Ok main -> buildCommand LocalRoot main = Err err ->
  let r := system.Run (System app) cmd (world h) in
  let h1 := {| world := snd r; calls := calls h ++ [system.CallRun cmd] |} in
  (Condition e = Exec_condition_Which_onlyIf (Ok cond) -> snd (fst r) = None ->
     applyExec app LocalRoot e h = (Some (Errorf "command: %v" [argError err]), h1))
  /\
  (Condition e = Exec_condition_Which_unless (Ok cond) ->
     forall x, snd (fst r) = Some x -> isExitError x = true ->
     applyExec app LocalRoot e h = (Some (Errorf "command: %v" [argError err]), h1)).
Proof.
  intros Hb Hm Hbm r h1.
  assert (Hmain : runMain app LocalRoot e h1
                  = (Some (Errorf "command: %v" [argError err]), h1)).
  { unfold runMain. rewrite Hm, Hbm. reflexivity. }
  split.
  - intros Hc Hr. unfold applyExec. rewrite Hc, Hb. unfold Run_.
    rewrite bind_run, call_run. cbn [fst snd]. fold r. rewrite Hr. exact Hmain.
  - intros Hc x Hr Hx. unfold applyExec. rewrite Hc, Hb. unfold Run_.
    rewrite bind_run, call_run. cbn [fst snd]. fold r. rewrite Hr, Hx. exact Hmain.
Qed.

(** *** Command construction: what is accepted and what is reported *)

Lemma readArgv_all_Ok (argv : list string) : forall i,
  readArgv i (map Ok argv) = Ok argv.
Proof.
  induction argv as [|s argv IH]; intros i; simpl; [reflexivity|].
  now rewrite IH.
Qed.

Lemma readArgv_first_Err (pre : list string) (e : error) (post : list (result string)) :
  forall i,
  readArgv i (map Ok pre ++ Err e :: post)
  = Err (Errorf "argv[%d]: %v" [argInt (i + N.of_nat (List.length pre)); argError e]).
Proof.
  induction pre as [|s pre IH]; intros i; simpl.
  - now rewrite N.add_0_r.
  - rewrite IH. do 4 f_equal. lia.
Qed.

Lemma goodName_length (ei : EnvVar) (k : string) :
  NameBytes ei = Ok k -> k <> EmptyString -> (String.length k =? 0)%nat = false.
Proof. intros _ Hk. destruct k; [contradiction|reflexivity]. Qed.

Lemma readEnv_all_good (env : list EnvVar) : forall i,
  (forall ei, In ei env -> goodName ei) -> readEnv i env = Ok (map envPair env).
Proof.
  induction env as [|ei env IH]; intros i Hg; simpl; [reflexivity|].
  destruct (Hg ei (or_introl eq_refl)) as [k [Hk Hne]].
  rewrite Hk, (goodName_length ei k Hk Hne), IH by (intros; apply Hg; now right).
  unfold envPair at 2. rewrite Hk. reflexivity.
Qed.

Lemma readEnv_first_bad (pre : list EnvVar) (bad : EnvVar) (post : list EnvVar) :
  (forall ei, In ei pre -> goodName ei) ->
  forall i,
  readEnv i (pre ++ bad :: post)
  = match NameBytes bad with
    | Err e =>
        Err (Errorf "getting environment[%d]: %v"
                    [argInt (i + N.of_nat (List.length pre)); argError e])
    | Ok k =>
        if (String.length k =? 0)%nat
        then Err (Errorf "environment[%d] missing name"
                         [argInt (i + N.of_nat (List.length pre))])
        else readEnv i (pre ++ bad :: post)
    end.
Proof.
  induction pre as [|ei pre IH]; intros Hg i.
  - simpl. rewrite N.add_0_r. destruct (NameBytes bad) as [k|e]; [|reflexivity].
    destruct (String.length k =? 0)%nat; reflexivity.
  - destruct (Hg ei (or_introl eq_refl)) as [k [Hk Hne]].
    assert (Hg' : forall x, In x pre -> goodName x) by (intros; apply Hg; now right).
    specialize (IH Hg' (N.succ i)).
    replace (N.succ i + N.of_nat (List.length pre))%N
      with (i + N.of_nat (List.length (ei :: pre)))%N in IH by (cbn [List.length]; lia).
    destruct (NameBytes bad) as [kb|e] eqn:Eb.
    + destruct (String.length kb =? 0)%nat eqn:Len; [|reflexivity].
      cbn [List.app readEnv]. rewrite Hk, (goodName_length ei k Hk Hne), IH. reflexivity.
    + cbn [List.app readEnv]. rewrite Hk, (goodName_length ei k Hk Hne), IH. reflexivity.
Qed.

(** [buildCommand] accepts a command exactly when it is an [argv] command
    with at least one entry, all entries readable and the first one an
    absolute path, every name of the environment readable and not empty,
    and the working directory empty or absolute. *)
Theorem buildCommand_accepts_iff (cmd : Exec_Command) :
  (exists c, buildCommand LocalRoot cmd = Ok c) <->
  (exists a argv,
     Command_Which cmd = Exec_Command_Which_argv a /\
     orZero [] a = map Ok argv /\ argv <> [] /\
     IsAbs (hd EmptyString argv) = true /\
     (forall ei, In ei (orZero [] (Environment cmd)) -> goodName ei) /\
     (orZero EmptyString (WorkingDirectory cmd) = EmptyString \/
      IsAbs (orZero EmptyString (WorkingDirectory cmd)) = true)).
Proof.
  split.
  - intros [c H]. pose proof H as H0. apply buildCommand_Ok in H.
    destruct H as (a & argv & env & Hw & Ha & Hne & He & Habs & _).
    exists a, argv. repeat split; try assumption.
    + apply readEnv_Ok in He. destruct He as [_ Hn]. exact Hn.
    + unfold buildCommand in H0. rewrite Hw, Ha in H0.
      rewrite length_map in H0. destruct argv as [|s argv]; [congruence|].
      cbn [List.length Nat.eqb] in H0. rewrite readArgv_all_Ok in H0.
      cbn [hd] in *. rewrite Habs in H0. cbn [negb] in H0. rewrite He in H0.
      destruct (String.eqb (orZero EmptyString (WorkingDirectory cmd)) EmptyString) eqn:Ed.
      * left. now apply String.eqb_eq.
      * right. destruct (IsAbs (orZero EmptyString (WorkingDirectory cmd)));
          [reflexivity|discriminate].
  - intros (a & argv & Hw & Ha & Hne & Habs & Hn & Hd).
    unfold buildCommand. rewrite Hw, Ha, length_map.
    destruct argv as [|s argv]; [congruence|].
    cbn [List.length Nat.eqb]. rewrite readArgv_all_Ok. cbn [hd] in *. rewrite Habs.
    cbn [negb]. rewrite (readEnv_all_good _ 0%N Hn).
    destruct (String.eqb (orZero EmptyString (WorkingDirectory cmd)) EmptyString) eqn:Ed;
      [eauto|].
    destruct Hd as [Hd|Hd]; [apply String.eqb_eq in Hd; congruence|].
    rewrite Hd. cbn [negb]. eauto.
Qed.

(** The checks of [argv] come first, whatever the environment and the
    working directory are: a command of another kind is unsupported; an
    empty [argv], an unreadable one among them, is "0-length argv"; the
    first unreadable entry is reported with its index; and a first entry
    that is not absolute is reported by name. *)
Theorem buildCommand_argv_errors (cmd : Exec_Command) :
  (forall tag, Command_Which cmd = Exec_Command_Which_other tag ->
     buildCommand LocalRoot cmd = Err (Errorf "unsupported command type %v" [argTag tag]))
  /\
  (forall a, Command_Which cmd = Exec_Command_Which_argv a -> orZero [] a = [] ->
     buildCommand LocalRoot cmd = Err (Errorf "0-length argv" []))
  /\
  (forall a pre e post, Command_Which cmd = Exec_Command_Which_argv a ->
     orZero [] a = map Ok pre ++ Err e :: post ->
     buildCommand LocalRoot cmd
     = Err (Errorf "argv[%d]: %v" [argInt (N.of_nat (List.length pre)); argError e]))
  /\
  (forall a argv0 rest, Command_Which cmd = Exec_Command_Which_argv a ->
     orZero [] a = map Ok (argv0 :: rest) -> IsAbs argv0 = false ->
     buildCommand LocalRoot cmd
     = Err (Errorf "argv[0] (%q) is not an absolute path" [argString argv0])).
Proof.
  unfold buildCommand. split; [|split; [|split]].
  - intros tag ->. reflexivity.
  - intros a -> ->. reflexivity.
  - intros a pre e post -> ->. rewrite readArgv_first_Err.
    destruct pre; reflexivity.
  - intros a argv0 rest -> -> Habs. rewrite readArgv_all_Ok. cbn [map List.length Nat.eqb hd].
    rewrite Habs. reflexivity.
Qed.

(** With a good [argv], the environment is checked next and the working
    directory last.  An entry of the environment whose name is empty or
    cannot be read is reported with the index of the first such entry.
    With a good environment, a working directory that is neither empty
    nor absolute is reported by name. *)
Theorem buildCommand_env_dir_errors
  (cmd : Exec_Command) (a : result (list (result string))) (argv0 : string)
  (rest : list string) :
  Command_Which cmd = Exec_Command_Which_argv a ->
  orZero [] a = map Ok (argv0 :: rest) -> IsAbs argv0 = true ->
  (forall pre bad post,
     orZero [] (Environment cmd) = pre ++ bad :: post ->
     (forall ei, In ei pre -> goodName ei) ->
     (NameBytes bad = Ok EmptyString ->
      buildCommand LocalRoot cmd
      = Err (Errorf "environment[%d] missing name" [argInt (N.of_nat (List.length pre))]))
     /\
     (forall e, NameBytes bad = Err e ->
      buildCommand LocalRoot cmd
      = Err (Errorf "getting environment[%d]: %v"
                    [argInt (N.of_nat (List.length pre)); argError e])))
  /\
  ((forall ei, In ei (orZero [] (Environment cmd)) -> goodName ei) ->
   orZero EmptyString (WorkingDirectory cmd) <> EmptyString ->
   IsAbs (orZero EmptyString (WorkingDirectory cmd)) = false ->
   buildCommand LocalRoot cmd
   = Err (Errorf "working directory %q is not absolute"
                 [argString (orZero EmptyString (WorkingDirectory cmd))])).
Proof.
  intros Hw Ha Habs. unfold buildCommand. rewrite Hw, Ha, readArgv_all_Ok.
  cbn [map List.length Nat.eqb hd]. rewrite Habs. cbn [negb]. split.
  - intros pre bad post He Hg. rewrite He, (readEnv_first_bad pre bad post Hg 0%N).
    split.
    + intros ->. reflexivity.
    + intros e ->. reflexivity.
  - intros Hg Hne Hd. rewrite (readEnv_all_good _ 0%N Hg).
    apply String.eqb_neq in Hne. rewrite Hne, Hd. reflexivity.
Qed.

End Executors.


(** *** The executors on the scripted host, once more *)

Lemma applyFile_own_path_witness :
  traces (fun c => callPath c = Some "/tmp/link"%string) 5 (applyFile scripted linkFile).
Proof. apply (applyFile_own_path scripted linkFile "/tmp/link"). reflexivity. Defined.

Lemma applyFile_checks_first_witness :
  exists e, applyFile scripted unknownFile (onHost (script [])) = (Some e, onHost (script [])).
Proof.
  apply (applyFile_checks_first scripted unknownFile (onHost (script []))).
  right. left. exists 9%N. reflexivity.
Defined.

(** A write that the host refuses: the one call, and its error. *)
Lemma applyFile_plain_with_content_witness :
  applyFile scripted contentFile (onHost (script [ReplyErr (Some accessDenied)]))
  = (Some accessDenied,
     {| world := {| replies := []; ticks := 1; cancelAt := None |};
        calls := [system.CallWriteFile "/etc/motd" "hello" 438%N] |}).
Proof.
  refine (applyFile_plain_with_content scripted contentFile "/etc/motd" "hello"
            (onHost (script [ReplyErr (Some accessDenied)])) _ _ _);
    [reflexivity | discriminate | reflexivity].
Defined.

(** A directory that is already there: [Mkdir], [Lstat], success. *)
Lemma applyFile_directory_witness :
  applyFile scripted dirFile
    (onHost (script [ReplyErr (Some dirExists);
                     ReplyInfo (Ok {| system.Mode := system.ModeDir |})]))
  = (None,
     {| world := {| replies := []; ticks := 2; cancelAt := None |};
        calls := [system.CallMkdir "/srv/www" 511%N; system.CallLstat "/srv/www"] |}).
Proof.
  assert (Hp : "/srv/www"%string <> EmptyString) by discriminate.
  destruct (applyFile_directory scripted dirFile "/srv/www"
              (onHost (script [ReplyErr (Some dirExists);
                               ReplyInfo (Ok {| system.Mode := system.ModeDir |})]))
              eq_refl Hp eq_refl) as [_ [_ H]].
  exact (H dirExists
           {| replies := [ReplyInfo (Ok {| system.Mode := system.ModeDir |})];
              ticks := 1; cancelAt := None |}
           (Ok {| system.Mode := system.ModeDir |})
           {| replies := []; ticks := 2; cancelAt := None |}
           eq_refl eq_refl eq_refl).
Defined.

(** Nothing to remove: the executor succeeds. *)
Lemma applyFile_absent_witness :
  applyFile scripted absentFile (onHost (script [ReplyErr (Some noSuchFile)]))
  = (None,
     {| world := {| replies := []; ticks := 1; cancelAt := None |};
        calls := [system.CallRemove "/tmp/a"] |}).
Proof.
  refine (proj1 (applyFile_absent scripted absentFile "/tmp/a"
                   (onHost (script [ReplyErr (Some noSuchFile)])) _ _ _));
    [reflexivity | discriminate | reflexivity].
Defined.

(** A regular file in the place of the link: an error after [Symlink] and
    [Lstat], and the file is left alone. *)
Lemma applyFile_symlink_keeps_others_witness :
  applyFile scripted linkFile
    (onHost (script [ReplyErr (Some fileExists); ReplyInfo (Ok {| system.Mode := 0%N |})]))
  = (Some (Errorf "%s is not a symlink" [argString "/tmp/link"]),
     {| world := {| replies := []; ticks := 2; cancelAt := None |};
        calls := [system.CallSymlink "/new" "/tmp/link"; system.CallLstat "/tmp/link"] |}).
Proof.
  assert (Hp : "/tmp/link"%string <> EmptyString) by discriminate.
  destruct (applyFile_symlink_keeps_others scripted linkFile "/tmp/link" "/new"
              (onHost (script [ReplyErr (Some fileExists);
                               ReplyInfo (Ok {| system.Mode := 0%N |})]))
              eq_refl Hp eq_refl) as [_ [H _]].
  refine (H fileExists
            {| replies := [ReplyInfo (Ok {| system.Mode := 0%N |})];
               ticks := 1; cancelAt := None |}
            (Ok {| system.Mode := 0%N |})
            {| replies := []; ticks := 2; cancelAt := None |}
            eq_refl eq_refl eq_refl _).
  discriminate.
Defined.

(** A main command that exits with a non-zero status: the error carries
    its output. *)
Lemma applyExec_always_witness :
  fst (applyExec scripted "/" echoExec (onHost (script [ReplyRun "oops" (Some boom)])))
  = Some (mkError None (Errorf "command: %v" [argError boom]) (Some "oops"%string)).
Proof.
  destruct (applyExec_always scripted "/" echoExec
              (onHost (script [ReplyRun "oops" (Some boom)])) eq_refl) as [H _].
  destruct (H echoCommand echoCmd eq_refl eq_refl) as [_ [_ H3]].
  exact (H3 boom eq_refl).
Defined.

(** The guarding file is there: the command is skipped. *)
Lemma applyExec_fileAbsent_witness :
  applyExec scripted "/" fileAbsentExec (onHost (script []))
  = (None,
     {| world := {| replies := []; ticks := 1; cancelAt := None |};
        calls := [system.CallLstat "/var/lock/done"] |}).
Proof.
  destruct (applyExec_fileAbsent scripted "/" fileAbsentExec (Ok "/var/lock/done"%string)
              (onHost (script [])) eq_refl) as [H _].
  exact (H {| system.Mode := 0%N |} eq_refl).
Defined.

Lemma applyExec_bad_condition_witness :
  exists err, applyExec scripted "/" badConditionExec (onHost (script []))
              = (Some err, onHost (script [])).
Proof.
  apply (applyExec_bad_condition scripted "/" badConditionExec (onHost (script []))).
  right. exists (Ok relativeCommand). split; [right; reflexivity|].
  eexists. reflexivity.
Defined.

(** The condition [/bin/true] is run before the relative main command is
    found out. *)
Lemma applyExec_validates_main_late_witness :
  applyExec scripted "/" lazyExec (onHost (script []))
  = (Some (Errorf "command: %v"
             [argError (Errorf "argv[0] (%q) is not an absolute path" [argString "echo"])]),
     {| world := {| replies := []; ticks := 1; cancelAt := None |};
        calls := [system.CallRun (cmdOf "/bin/true")] |}).
Proof.
  destruct (applyExec_validates_main_late scripted "/" lazyExec trueCommand relativeCommand
              (cmdOf "/bin/true")
              (Errorf "argv[0] (%q) is not an absolute path" [argString "echo"])
              (onHost (script [])) eq_refl eq_refl eq_refl) as [H _].
  exact (H eq_refl eq_refl).
Defined.

Lemma buildCommand_accepts_iff_witness :
  exists c, buildCommand "/" echoCommand = Ok c.
Proof.
  apply (proj2 (buildCommand_accepts_iff "/" echoCommand)).
  exists (Ok (map Ok ["/bin/echo"; "hi"]%string)), ["/bin/echo"; "hi"]%string.
  split; [reflexivity|]. split; [reflexivity|]. split; [discriminate|].
  split; [reflexivity|]. split; [|left; reflexivity].
  intros ei [<-|[<-|[]]]; eexists; (split; [reflexivity|discriminate]).
Defined.

Lemma buildCommand_argv_errors_witness :
  buildCommand "/" relativeCommand
  = Err (Errorf "argv[0] (%q) is not an absolute path" [argString "echo"]).
Proof.
  destruct (buildCommand_argv_errors "/" relativeCommand) as [_ [_ [_ H]]].
  exact (H (Ok [Ok "echo"%string]) "echo"%string [] eq_refl eq_refl eq_refl).
Defined.

(** The second entry of the environment is the one reported. *)
Lemma buildCommand_env_dir_errors_witness :
  buildCommand "/" emptyNameCommand
  = Err (Errorf "environment[%d] missing name" [argInt 1]).
Proof.
  destruct (buildCommand_env_dir_errors "/" emptyNameCommand
              (Ok [Ok "/bin/echo"%string]) "/bin/echo"%string []
              eq_refl eq_refl eq_refl) as [H _].
  refine (proj1 (H [ {| NameBytes := Ok "A"%string; ValueBytes := Ok "1"%string |} ]
                   {| NameBytes := Ok EmptyString; ValueBytes := Ok "x"%string |}
                   [] eq_refl _) eq_refl).
  intros ei [<-|[]]. eexists. split; [reflexivity|discriminate].
Defined.

End executor_facts.

(** ** More on the driver *)
Module run_facts.
Import catalog depgraph depgraph_facts execlib driver.

Section Runs.

Context {W : Type}.
Variable app : Applier W.
Variable ctx : Context W.
Variable LocalRoot : string.

Lemma Resource_restatus (f : node -> node) (g : Graph) (id : N) :
  (forall n, res (f n) = res n) -> Resource (map f g) id = Resource g id.
Proof.
  intros Hf. unfold Resource. rewrite (restatus_lookup f Hf).
  destruct (lookup g id); simpl; [apply Hf|reflexivity].
Qed.

Lemma loopBody_Resource (ok : bool) (g : Graph) (curr : N) (r : Run W) (id : N) :
  Resource (snd (fst (loopBody app LocalRoot ok g curr r))) id = Resource g id.
Proof.
  destruct (loopBody_cases app LocalRoot ok g curr r) as (e & r' & _ & -> & _).
  cbn [fst snd]. destruct e.
  - rewrite MarkFailure_map. apply Resource_restatus, failNode_res.
  - rewrite Mark_map. apply Resource_restatus, markNode_res.
Qed.

Lemma orderly_ext (g g' : Graph) (r : Run W) :
  (forall id, Resource g' id = Resource g id) -> orderly g r -> orderly g' r.
Proof.
  intros E (H1 & H2 & H3 & H4). unfold orderly. split; [assumption|]. split; [|split].
  - intros l1 id e l2 d Ha Hd. rewrite E in Hd. eauto.
  - rewrite H3. apply map_ext. intros x. unfold applyingLine. now rewrite E.
  - rewrite H4. apply flat_map_ext. intros x. unfold errorLine. now rewrite E.
Qed.

(** The log lines of one iteration. *)
Lemma loopBody_logs (ok : bool) (g : Graph) (curr : N) (r : Run W) :
  exists e r' skip,
    snd (loopBody app LocalRoot ok g curr r) = r' /\
    applied r' = applied r ++ [(curr, e)] /\
    logs r' = logs r ++ applyingLine g (curr, e) :: errorLine g (curr, e) ++ skip /\
    (skip = [] \/ exists names,
        skip = [LogInfo ("skipping due to failure of " ++ names)]).
Proof.
  unfold loopBody, runResource.
  destruct (applyResource app LocalRoot (Resource g curr) _) as [e h] eqn:E.
  exists e. unfold errorLine, applyingLine. cbn [fst snd].
  destruct (errorWithResource (Resource g curr) e) as [err|] eqn:Ew.
  - destruct (MarkFailure g curr) as [skipped g'] eqn:Em.
    destruct (0 <? List.length skipped)%nat; unfold logInfof, logError; cbn [logs applied snd].
    + eexists. eexists. split; [reflexivity|]. split; [reflexivity|].
      split; [rewrite <- !app_assoc; reflexivity|]. right. eexists. reflexivity.
    + eexists. exists []. split; [reflexivity|]. split; [reflexivity|].
      split; [rewrite <- !app_assoc; reflexivity|]. now left.
  - unfold logInfof. cbn [logs applied snd].
    eexists. exists []. split; [reflexivity|]. split; [reflexivity|].
    split; [reflexivity|]. now left.
Qed.

Lemma NoDup_fst_unique {A : Type} (l : list (N * A)) (x : N) (a b : A) :
  NoDup (map fst l) -> In (x, a) l -> In (x, b) l -> a = b.
Proof.
  induction l as [|[y c] l IH]; simpl; intros Hnd Ha Hb; [destruct Ha|].
  inversion Hnd as [|? ? Hy Hnd']; subst.
  destruct Ha as [Ha|Ha], Hb as [Hb|Hb].
  - congruence.
  - injection Ha as -> ->. exfalso. apply Hy.
    change x with (fst (x, b)). now apply in_map.
  - injection Hb as -> ->. exfalso. apply Hy.
    change x with (fst (x, a)). now apply in_map.
  - auto.
Qed.

Lemma prefix_append (p s : string) : String.prefix p (p ++ s)%string = true.
Proof.
  induction p as [|a p IH]; simpl; [destruct s; reflexivity|].
  destruct (ascii_dec a a); [assumption|contradiction].
Qed.

Lemma isApplying_applyingLine (g : Graph) (x : N * goerror) :
  isApplying (applyingLine g x) = true.
Proof. apply prefix_append. Qed.

Lemma isApplying_skipping (names : string) :
  isApplying (LogInfo ("skipping due to failure of " ++ names)) = false.
Proof.
  cbn. destruct (ascii_dec "a" "s") as [E|_]; [discriminate E|reflexivity].
Qed.

Lemma NoDup_snoc {A : Type} (l : list A) (x : A) :
  NoDup l -> ~ In x l -> NoDup (l ++ [x]).
Proof.
  induction l as [|a l IH]; simpl; intros Hnd Hx.
  - constructor; [intros []|constructor].
  - inversion Hnd as [|? ? Ha Hnd']; subst. constructor.
    + intros Hin. apply in_app_or in Hin. destruct Hin as [Hin|[->|[]]]; [auto|].
      apply Hx. now left.
    + apply IH; [assumption|]. intros Hin. apply Hx. now right.
Qed.

(** An iteration on a ready handle keeps the run orderly. *)
Lemma loopBody_orderly (ok : bool) (g : Graph) (curr : N) (r : Run W) :
  consistent g ok r -> orderly g r -> In curr (Ready g) ->
  orderly (snd (fst (loopBody app LocalRoot ok g curr r)))
          (snd (loopBody app LocalRoot ok g curr r)).
Proof.
  intros (Hnd & Hap & Hdone & _) (H1 & H2 & H3 & H4) Hr.
  apply orderly_ext with (g := g); [intros id; apply loopBody_Resource|].
  destruct (loopBody_logs ok g curr r) as (e & r' & skip & -> & Ha & Hl & Hs).
  apply Ready_In in Hr. destruct Hr as (nc & Hnc & Hrc & Hidc).
  unfold isReady in Hrc. apply andb_true_iff in Hrc. destruct Hrc as [Hpc Hdc].
  apply isPending_status in Hpc.
  unfold orderly. rewrite Ha, Hl. split; [|split; [|split]].
  - rewrite map_app. cbn [map fst].
    apply NoDup_snoc; [assumption|].
    intros Hx. apply in_map_iff in Hx. destruct Hx as [[id e0] [E Hin]].
    cbn in E. subst id. destruct (Hap _ _ Hin) as (n & Hn & Hid & Hst).
    assert (n = nc) by (apply (same_ID g); congruence). subst n.
    rewrite Hpc in Hst. destruct e0; discriminate.
  - intros l1 id e0 l2 d E Hd.
    destruct l2 as [|x l2 _] using rev_ind.
    + apply app_inj_tail in E. destruct E as [<- E]. injection E as <- <-.
      unfold Resource in Hd. rewrite <- Hidc in Hd.
      rewrite (lookup_unique g nc Hnd Hnc) in Hd.
      rewrite forallb_forall in Hdc. specialize (Hdc d Hd). unfold depDone in Hdc.
      destruct (lookup g d) as [m|] eqn:Hm; [|discriminate].
      destruct (lookup_Some _ _ _ Hm) as [Hmin Hmid]. rewrite <- Hmid.
      apply Hdone; [assumption|]. unfold isDone in Hdc.
      destruct (status m); solve [reflexivity|discriminate].
    + rewrite app_comm_cons, app_assoc in E. apply app_inj_tail in E.
      destruct E as [E _]. eauto.
  - rewrite filter_app, map_app, H3. f_equal. cbn [filter map].
    rewrite isApplying_applyingLine. f_equal. rewrite filter_app.
    assert (He : filter isApplying (errorLine g (curr, e)) = []).
    { unfold errorLine. destruct (errorWithResource _ _); reflexivity. }
    rewrite He. destruct Hs as [->|[names ->]]; [reflexivity|].
    cbn [filter List.app]. now rewrite isApplying_skipping.
  - rewrite filter_app, flat_map_app, H4. f_equal. cbn [filter flat_map].
    assert (Ht : isLogError (applyingLine g (curr, e)) = false) by reflexivity.
    rewrite Ht, app_nil_r, filter_app.
    assert (He : filter isLogError (errorLine g (curr, e)) = errorLine g (curr, e)).
    { unfold errorLine. destruct (errorWithResource _ _); reflexivity. }
    rewrite He. destruct Hs as [->|[names ->]]; cbn; now rewrite app_nil_r.
Qed.

Lemma applyLoop_orderly : forall fuel ok g (r : Run W) err g' r',
  consistent g ok r -> orderly g r ->
  applyLoop app ctx LocalRoot fuel ok g r = Some (err, g', r') ->
  orderly g' r'.
Proof.
  induction fuel as [|fuel IH]; intros ok g r err g' r' Hc Ho H; simpl in H; [discriminate|].
  destruct (Done g).
  - injection H as _ <- <-. assumption.
  - destruct (Ready g) as [|curr rest] eqn:Er.
    + injection H as _ <- <-. assumption.
    + destruct (Err_ ctx (world (host r))).
      * injection H as _ <- <-. assumption.
      * assert (Hin : In curr (Ready g)) by (rewrite Er; now left).
        pose proof (loopBody_orderly ok g curr r Hc Ho Hin) as Ho'.
        destruct (loopBody_consistent app LocalRoot ok g curr r Hc Hin) as [Hc' _].
        destruct (loopBody app LocalRoot ok g curr r) as [[ok1 g1] r1].
        cbn [fst snd] in *. eapply IH; eassumption.
Qed.

Lemma start_orderly (g : Graph) (w : W) : orderly g (start w).
Proof.
  unfold orderly, start. cbn. repeat split; try constructor.
  intros l1 id e l2 d E. destruct l1; discriminate.
Qed.

(** What a run of [Apply] that built a graph ends with. *)
Lemma Apply_run (c : Catalog) (w : W) err g' r :
  Apply app ctx LocalRoot c w = Some (err, Some g', r) ->
  map res g' = orZero [] (Resources c) /\
  NoDup (map nodeID g') /\
  (exists ok, consistent g' ok r) /\ orderly g' r.
Proof.
  unfold Apply. destruct (New (orZero [] (Resources c))) as [g|e] eqn:En; [|discriminate].
  destruct (New_Ok _ g En) as [Hg Hwf].
  apply wellFormed_parts in Hwf. destruct Hwf as [Hnd _]. apply nodupIDs_NoDup in Hnd.
  assert (Hc : consistent g true (start w)).
  { apply start_consistent; [assumption|]. intros n Hin. rewrite Hg in Hin.
    apply in_map_iff in Hin. destruct Hin as [x [<- _]]. reflexivity. }
  destruct (applyCatalog app ctx LocalRoot g (start w)) as [[[e1 g1] r1]|] eqn:Hrun;
    [|discriminate].
  unfold applyCatalog in Hrun.
  destruct (applyLoop_consistent app ctx LocalRoot _ _ _ _ _ _ _ Hc Hrun)
    as [Hres [ok' [Hc' _]]].
  pose proof (applyLoop_orderly _ _ _ _ _ _ _ Hc (start_orderly g w) Hrun) as Ho.
  intros H. assert (g1 = g' /\ r1 = r) as [<- <-].
  { destruct e1; injection H as _ <- <-; auto. }
  split; [rewrite Hres, Hg, map_map; apply map_id|].
  split; [exact (proj1 Hc')|]. split; [eauto|assumption].
Qed.

Lemma Apply_no_graph (c : Catalog) (w : W) err r :
  Apply app ctx LocalRoot c w = Some (err, None, r) -> r = start w.
Proof.
  unfold Apply. destruct (New (orZero [] (Resources c))) as [g|e].
  - destruct (applyCatalog app ctx LocalRoot g (start w)) as [[[e1 g1] r1]|];
      [destruct e1|]; discriminate.
  - intros H. now injection H as _ <-.
Qed.

Lemma Apply_Resource (c : Catalog) (w : W) err g r (x : catalog.Resource) :
  Apply app ctx LocalRoot c w = Some (err, Some g, r) ->
  In x (orZero [] (Resources c)) -> Resource g (ID x) = x.
Proof.
  intros H Hx. destruct (Apply_run c w err g r H) as (Hres & Hnd & _).
  rewrite <- Hres in Hx. apply in_map_iff in Hx. destruct Hx as [n [<- Hn]].
  unfold Resource. change (ID (res n)) with (nodeID n).
  now rewrite (lookup_unique g n Hnd Hn).
Qed.

(** In a run of [Apply] no resource is applied twice, and what is applied
    is a resource of the catalog. *)
Theorem Apply_at_most_once (c : Catalog) (w : W) err og r :
  Apply app ctx LocalRoot c w = Some (err, og, r) ->
  NoDup (map fst (applied r)) /\
  forall id e, In (id, e) (applied r) ->
    exists x, In x (orZero [] (Resources c)) /\ ID x = id.
Proof.
  intros H. destruct og as [g|].
  - destruct (Apply_run c w err g r H) as (Hres & _ & [ok Hc] & Ho).
    split; [exact (proj1 Ho)|].
    intros id e Hin. destruct Hc as (_ & Hap & _).
    destruct (Hap id e Hin) as (n & Hn & Hid & _).
    exists (res n). split; [|exact Hid]. rewrite <- Hres. now apply in_map.
  - rewrite (Apply_no_graph c w err r H). cbn. split; [constructor|intros id e []].
Qed.

(** A resource is applied only after each of its dependencies has been
    applied with success: in the trace of a run, the entries before that
    of a resource hold a [nil] result for every ID the resource depends
    on. *)
Theorem Apply_dependencies_first (c : Catalog) (w : W) err og r :
  Apply app ctx LocalRoot c w = Some (err, og, r) ->
  forall l1 x e l2 d,
    applied r = l1 ++ (ID x, e) :: l2 ->
    In x (orZero [] (Resources c)) -> In d (Dependencies x) ->
    In (d, None) l1.
Proof.
  intros H l1 x e l2 d Ha Hx Hd. destruct og as [g|].
  - destruct (Apply_run c w err g r H) as (_ & _ & _ & Ho).
    destruct Ho as (_ & H2 & _). apply (H2 l1 (ID x) e l2 d Ha).
    now rewrite (Apply_Resource c w err g r x H Hx).
  - rewrite (Apply_no_graph c w err r H) in Ha. cbn in Ha.
    destruct l1; discriminate.
Qed.

(** A failure cuts off everything behind it: a resource that has been
    applied has had every resource it reaches along dependencies applied
    with success; so once a resource has failed, no resource that reaches
    it is applied in this run. *)
Theorem Apply_failure_blocks (c : Catalog) (w : W) err og r :
  Apply app ctx LocalRoot c w = Some (err, og, r) ->
  forall a id, reaches (orZero [] (Resources c)) a id ->
    (forall e, In (a, e) (applied r) -> In (id, None) (applied r)) /\
    (forall e, In (id, Some e) (applied r) -> forall e', ~ In (a, e') (applied r)).
Proof.
  intros H a id Hreach.
  assert (Hup : forall e, In (a, e) (applied r) -> In (id, None) (applied r)).
  { induction Hreach as [x d Hx Hd | x d id Hx Hd Hreach IH]; intros e Hin.
    - apply in_split in Hin. destruct Hin as (l1 & l2 & E).
      pose proof (Apply_dependencies_first c w err og r H l1 x e l2 d E Hx Hd) as Hl.
      rewrite E. apply in_or_app. now left.
    - apply in_split in Hin. destruct Hin as (l1 & l2 & E).
      pose proof (Apply_dependencies_first c w err og r H l1 x e l2 d E Hx Hd) as Hl.
      apply (IH None). rewrite E. apply in_or_app. now left. }
  split; [exact Hup|].
  intros e Hfail e' Hin. specialize (Hup e' Hin).
  destruct (Apply_at_most_once c w err og r H) as [Hnd _].
  pose proof (NoDup_fst_unique _ _ _ _ Hnd Hup Hfail). discriminate.
Qed.

(** The log follows the trace: when a graph was built, the "applying"
    lines of the log are those of the resources applied, one each and in
    the order of application, and the errors logged are those of the
    failed resources, one each, in the same order and wrapped with the
    identity of the resource. *)
Theorem Apply_log (c : Catalog) (w : W) err g r :
  Apply app ctx LocalRoot c w = Some (err, Some g, r) ->
  filter isApplying (logs r) = map (applyingLine g) (applied r) /\
  filter isLogError (logs r) = flat_map (errorLine g) (applied r).
Proof.
  intros H. destruct (Apply_run c w err g r H) as (_ & _ & _ & Ho).
  destruct Ho as (_ & _ & H3 & H4). auto.
Qed.

Lemma applyLoop_noops : forall fuel g (r : Run W) err g' r',
  (forall id, Body (Resource g id) = Resource_Which_noop) ->
  applyLoop app ctx LocalRoot fuel true g r = Some (err, g', r') ->
  calls (host r') = calls (host r) /\
  (err = None \/ err = Some nothingToDo \/ exists k, err = Some (contextError k)) /\
  (Forall (fun x => snd x = None) (applied r) ->
   Forall (fun x => snd x = None) (applied r')).
Proof.
  induction fuel as [|fuel IH]; intros g r err g' r' Hn H; simpl in H; [discriminate|].
  destruct (Done g).
  - injection H as <- _ <-. repeat split; auto.
  - destruct (Ready g) as [|curr rest].
    + injection H as <- _ <-. repeat split; auto.
    + destruct (Err_ ctx (world (host r))).
      * injection H as <- _ <-. repeat split; eauto.
      * unfold loopBody, runResource, applyResource in H. rewrite Hn in H.
        cbn [ret errorWithResource] in H.
        apply IH in H.
        -- destruct H as (Hc & He & Hf). cbn [host calls logInfof applied] in *.
           repeat split; [assumption|assumption|].
           intros Ha. apply Hf. apply Forall_app. split; [assumption|].
           constructor; [reflexivity|constructor].
        -- intros id. rewrite Mark_map, Resource_restatus by apply markNode_res.
           apply Hn.
Qed.

(** A catalog of [noop] resources calls no [System] method: whatever the
    order and the dependencies, the trace of calls stays empty, every
    resource applied succeeds, and [Apply] does not end with the summary
    error. *)
Theorem Apply_noops (c : Catalog) (w : W) err og r :
  (forall x, In x (orZero [] (Resources c)) -> Body x = Resource_Which_noop) ->
  Apply app ctx LocalRoot c w = Some (err, og, r) ->
  calls (host r) = [] /\
  (forall id e, In (id, e) (applied r) -> e = None) /\
  (og <> None -> err <> Some (toError notClean)).
Proof.
  intros Hn H. destruct og as [g'|].
  - pose proof H as H0. unfold Apply in H.
    destruct (New (orZero [] (Resources c))) as [g|e] eqn:En; [|discriminate].
    destruct (New_Ok _ g En) as [Hg _].
    destruct (applyCatalog app ctx LocalRoot g (start w)) as [[[e1 g1] r1]|] eqn:Hrun;
      [|discriminate].
    unfold applyCatalog in Hrun. apply applyLoop_noops in Hrun.
    + destruct Hrun as (Hc & He & Hf).
      assert (r1 = r /\ err = match e1 with Some e => Some (toError e) | None => None end)
        as [<- ->] by (destruct e1; injection H as <- _ <-; auto).
      split; [exact Hc|]. split.
      * intros id e Hin. specialize (Hf (Forall_nil _)).
        rewrite Forall_forall in Hf. exact (Hf (id, e) Hin).
      * intros _. destruct He as [->|[->|[k ->]]]; discriminate.
    + intros id. unfold Resource. destruct (lookup g id) as [n|] eqn:Hl; [|reflexivity].
      apply lookup_Some in Hl. destruct Hl as [Hin _]. rewrite Hg in Hin.
      apply in_map_iff in Hin. destruct Hin as [x [<- Hx]]. cbn. now apply Hn.
  - rewrite (Apply_no_graph c w err r H). cbn.
    split; [reflexivity|]. split; [intros id e []|congruence].
Qed.

End Runs.


(** *** The diamond on the scripted host *)

Lemma diamond_run :
  Apply scripted scriptedContext "/" (catalogOf diamondResources) diamondWorld
  = Some (Some (toError notClean), Some diamondGraph, diamondRun).
Proof. vm_compute. reflexivity. Qed.

Lemma Apply_at_most_once_witness :
  NoDup (map fst (applied diamondRun)) /\
  forall id e, In (id, e) (applied diamondRun) ->
    exists x, In x diamondResources /\ ID x = id.
Proof.
  exact (Apply_at_most_once scripted scriptedContext "/" (catalogOf diamondResources)
           diamondWorld _ _ _ diamond_run).
Defined.

(** The third resource is applied after the first, which it needs. *)
Lemma Apply_dependencies_first_witness :
  In (1%N, None) [(1%N, @None error); (2%N, Some accessDenied)].
Proof.
  exact (Apply_dependencies_first scripted scriptedContext "/" (catalogOf diamondResources)
           diamondWorld _ _ _ diamond_run
           [(1%N, None); (2%N, Some accessDenied)] (noopResource 3 [1%N]) None [] 1%N
           eq_refl (or_intror (or_intror (or_introl eq_refl))) (or_introl eq_refl)).
Defined.

(** The third resource was applied, so the first, which it needs, had
    succeeded; and the second failed, so the fourth, which needs it, is
    not applied. *)
Lemma Apply_failure_blocks_witness :
  In (1%N, None) (applied diamondRun) /\
  (forall e', ~ In (4%N, e') (applied diamondRun)).
Proof.
  split.
  - refine (proj1 (Apply_failure_blocks scripted scriptedContext "/"
                     (catalogOf diamondResources) diamondWorld _ _ _ diamond_run
                     3%N 1%N _) None _).
    + apply (reaches_dep diamondResources (noopResource 3 [1%N]) 1%N);
        [right; right; left; reflexivity | left; reflexivity].
    + right. right. left. reflexivity.
  - refine (proj2 (Apply_failure_blocks scripted scriptedContext "/"
                     (catalogOf diamondResources) diamondWorld _ _ _ diamond_run
                     4%N 2%N _) accessDenied _).
    + apply (reaches_dep diamondResources (noopResource 4 [2; 3]%N) 2%N);
        left; reflexivity.
    + right. left. reflexivity.
Defined.

Lemma Apply_log_witness :
  filter isApplying (logs diamondRun)
  = [LogInfo "applying: id=1"; LogInfo "applying: id=2"; LogInfo "applying: id=3"] /\
  filter isLogError (logs diamondRun)
  = [LogError (mkError (Some {| refID := 2; refComment := EmptyString |})
                       accessDenied None)].
Proof.
  destruct (Apply_log scripted scriptedContext "/" (catalogOf diamondResources)
              diamondWorld _ _ _ diamond_run) as [H1 H2].
  split; [rewrite H1|rewrite H2]; reflexivity.
Defined.

Lemma noop_run :
  Apply scripted scriptedContext "/" (catalogOf noopResources) (script [])
  = Some (None,
          Some [ {| res := noopResource 3 [1; 2]%N; status := done |};
                 {| res := noopResource 2 []; status := done |};
                 {| res := noopResource 1 []; status := done |} ],
          noopRun).
Proof. vm_compute. reflexivity. Qed.

Lemma Apply_noops_witness :
  calls (host noopRun) = [] /\
  (forall id e, In (id, e) (applied noopRun) -> e = None).
Proof.
  assert (Hn : forall x, In x (orZero [] (Resources (catalogOf noopResources))) ->
                         Body x = Resource_Which_noop).
  { intros x [<-|[<-|[<-|[]]]]; reflexivity. }
  destruct (Apply_noops scripted scriptedContext "/" (catalogOf noopResources) (script [])
              _ _ _ Hn noop_run) as [H1 [H2 _]].
  split; assumption.
Defined.

End run_facts.

(** ** The IDs made by [luacat] *)
Module luacat_facts.
Import luacat.

Lemma testbit_small (x n m : N) : (x < 2 ^ n)%N -> (n <= m)%N -> N.testbit x m = false.
Proof.
  intros Hx Hm. destruct (N.eq_dec x 0) as [->|Hne]; [apply N.bits_0|].
  apply N.bits_above_log2. apply N.log2_lt_pow2 in Hx; lia.
Qed.

(** Below bit [n] there is nothing of [b] shifted by [n], so that or-ing
    it to a number below [2 ^ n] adds it. *)
Lemma lor_shiftl_add (x b n : N) :
  (x < 2 ^ n)%N -> N.lor x (N.shiftl b n) = (x + b * 2 ^ n)%N.
Proof.
  intros Hx. rewrite <- N.lxor_lor.
  - rewrite N.shiftl_mul_pow2. symmetry. apply N.add_nocarry_lxor.
    rewrite <- N.shiftl_mul_pow2. apply N.bits_inj. intros m.
    rewrite N.land_spec, N.bits_0.
    destruct (N.lt_ge_cases m n) as [Hm|Hm].
    + rewrite N.shiftl_spec_low by assumption. apply andb_false_r.
    + rewrite (testbit_small x n m Hx Hm). reflexivity.
  - apply N.bits_inj. intros m. rewrite N.land_spec, N.bits_0.
    destruct (N.lt_ge_cases m n) as [Hm|Hm].
    + rewrite N.shiftl_spec_low by assumption. apply andb_false_r.
    + rewrite (testbit_small x n m Hx Hm). reflexivity.
Qed.

Lemma hashByte_bound (hash : list Byte.byte) (i : nat) : (hashByte hash i < 256)%N.
Proof. unfold hashByte. pose proof (Byte.to_N_bounded (nth i hash Byte.x00)). lia. Qed.

Lemma lowByte_bound (hash : list Byte.byte) : (N.lor 1 (hashByte hash 0) < 256)%N.
Proof.
  unfold hashByte. destruct (nth 0 hash Byte.x00); vm_compute; reflexivity.
Qed.

Lemma digit_unique (a b a' b' : N) :
  (a < 256)%N -> (a' < 256)%N -> (a + 256 * b = a' + 256 * b')%N -> a = a' /\ b = b'.
Proof. intros Ha Ha' E. lia. Qed.

Section IdHashFacts.

Variable SHA1 : string -> list Byte.byte.

(** [idHash] as a little-endian number of eight digits, the lowest with
    its lowest bit set. *)
Lemma idHash_digits (s : string) :
  idHash SHA1 s =
  (let hash := SHA1 (idHashPrefix ++ s)%string in
   N.lor 1 (hashByte hash 0)
   + hashByte hash 1 * 2 ^ 8 + hashByte hash 2 * 2 ^ 16 + hashByte hash 3 * 2 ^ 24
   + hashByte hash 4 * 2 ^ 32 + hashByte hash 5 * 2 ^ 40 + hashByte hash 6 * 2 ^ 48
   + hashByte hash 7 * 2 ^ 56)%N.
Proof.
  unfold idHash. cbv zeta. set (hash := SHA1 _).
  pose proof (lowByte_bound hash) as H0.
  pose proof (hashByte_bound hash 1) as H1. pose proof (hashByte_bound hash 2) as H2.
  pose proof (hashByte_bound hash 3) as H3. pose proof (hashByte_bound hash 4) as H4.
  pose proof (hashByte_bound hash 5) as H5. pose proof (hashByte_bound hash 6) as H6.
  change (2 ^ 8)%N with 256%N. change (2 ^ 16)%N with 65536%N.
  change (2 ^ 24)%N with 16777216%N. change (2 ^ 32)%N with 4294967296%N.
  change (2 ^ 40)%N with 1099511627776%N. change (2 ^ 48)%N with 281474976710656%N.
  change (2 ^ 56)%N with 72057594037927936%N.
  rewrite (lor_shiftl_add _ _ 8) by (change (2 ^ 8)%N with 256%N; lia).
  rewrite (lor_shiftl_add _ _ 16) by (change (2 ^ 8)%N with 256%N;
                                      change (2 ^ 16)%N with 65536%N; lia).
  rewrite (lor_shiftl_add _ _ 24)
    by (change (2 ^ 8)%N with 256%N; change (2 ^ 16)%N with 65536%N;
        change (2 ^ 24)%N with 16777216%N; lia).
  rewrite (lor_shiftl_add _ _ 32)
    by (change (2 ^ 8)%N with 256%N; change (2 ^ 16)%N with 65536%N;
        change (2 ^ 24)%N with 16777216%N; change (2 ^ 32)%N with 4294967296%N; lia).
  rewrite (lor_shiftl_add _ _ 40)
    by (change (2 ^ 8)%N with 256%N; change (2 ^ 16)%N with 65536%N;
        change (2 ^ 24)%N with 16777216%N; change (2 ^ 32)%N with 4294967296%N;
        change (2 ^ 40)%N with 1099511627776%N; lia).
  rewrite (lor_shiftl_add _ _ 48)
    by (change (2 ^ 8)%N with 256%N; change (2 ^ 16)%N with 65536%N;
        change (2 ^ 24)%N with 16777216%N; change (2 ^ 32)%N with 4294967296%N;
        change (2 ^ 40)%N with 1099511627776%N;
        change (2 ^ 48)%N with 281474976710656%N; lia).
  rewrite (lor_shiftl_add _ _ 56)
    by (change (2 ^ 8)%N with 256%N; change (2 ^ 16)%N with 65536%N;
        change (2 ^ 24)%N with 16777216%N; change (2 ^ 32)%N with 4294967296%N;
        change (2 ^ 40)%N with 1099511627776%N;
        change (2 ^ 48)%N with 281474976710656%N;
        change (2 ^ 56)%N with 72057594037927936%N; lia).
  change (2 ^ 8)%N with 256%N. change (2 ^ 16)%N with 65536%N.
  change (2 ^ 24)%N with 16777216%N. change (2 ^ 32)%N with 4294967296%N.
  change (2 ^ 40)%N with 1099511627776%N. change (2 ^ 48)%N with 281474976710656%N.
  change (2 ^ 56)%N with 72057594037927936%N. reflexivity.
Qed.

(** The ID of a name is odd, so never zero, and fits the 64 bits of an
    ID, whatever the digest is. *)
Theorem idHash_odd_64bit (s : string) :
  N.testbit (idHash SHA1 s) 0 = true /\ idHash SHA1 s <> 0%N /\
  (idHash SHA1 s < 2 ^ 64)%N.
Proof.
  assert (Hodd : N.testbit (idHash SHA1 s) 0 = true).
  { unfold idHash. cbv zeta. rewrite !N.lor_spec. reflexivity. }
  split; [exact Hodd|]. split.
  - intros E. rewrite E in Hodd. discriminate.
  - rewrite idHash_digits. cbv zeta. set (hash := SHA1 _).
    pose proof (lowByte_bound hash) as H0.
    pose proof (hashByte_bound hash 1) as H1. pose proof (hashByte_bound hash 2) as H2.
    pose proof (hashByte_bound hash 3) as H3. pose proof (hashByte_bound hash 4) as H4.
    pose proof (hashByte_bound hash 5) as H5. pose proof (hashByte_bound hash 6) as H6.
    pose proof (hashByte_bound hash 7) as H7.
    change (2 ^ 8)%N with 256%N. change (2 ^ 16)%N with 65536%N.
    change (2 ^ 24)%N with 16777216%N. change (2 ^ 32)%N with 4294967296%N.
    change (2 ^ 40)%N with 1099511627776%N. change (2 ^ 48)%N with 281474976710656%N.
    change (2 ^ 56)%N with 72057594037927936%N.
    change (2 ^ 64)%N with 18446744073709551616%N. lia.
Qed.

(** Two names get the same ID exactly when the first eight bytes of their
    digests agree, the lowest bit of the first byte apart: the ID keeps 63
    bits of the digest. *)
Theorem idHash_collision (s t : string) :
  idHash SHA1 s = idHash SHA1 t <->
  N.lor 1 (hashByte (SHA1 (idHashPrefix ++ s)%string) 0)
  = N.lor 1 (hashByte (SHA1 (idHashPrefix ++ t)%string) 0) /\
  forall i, (1 <= i < 8)%nat ->
    hashByte (SHA1 (idHashPrefix ++ s)%string) i
    = hashByte (SHA1 (idHashPrefix ++ t)%string) i.
Proof.
  rewrite !idHash_digits. cbv zeta.
  set (hs := SHA1 (idHashPrefix ++ s)%string). set (ht := SHA1 (idHashPrefix ++ t)%string).
  pose proof (lowByte_bound hs) as S0. pose proof (lowByte_bound ht) as T0.
  pose proof (hashByte_bound hs 1) as S1. pose proof (hashByte_bound ht 1) as T1.
  pose proof (hashByte_bound hs 2) as S2. pose proof (hashByte_bound ht 2) as T2.
  pose proof (hashByte_bound hs 3) as S3. pose proof (hashByte_bound ht 3) as T3.
  pose proof (hashByte_bound hs 4) as S4. pose proof (hashByte_bound ht 4) as T4.
  pose proof (hashByte_bound hs 5) as S5. pose proof (hashByte_bound ht 5) as T5.
  pose proof (hashByte_bound hs 6) as S6. pose proof (hashByte_bound ht 6) as T6.
  pose proof (hashByte_bound hs 7) as S7. pose proof (hashByte_bound ht 7) as T7.
  change (2 ^ 8)%N with 256%N. change (2 ^ 16)%N with 65536%N.
  change (2 ^ 24)%N with 16777216%N. change (2 ^ 32)%N with 4294967296%N.
  change (2 ^ 40)%N with 1099511627776%N. change (2 ^ 48)%N with 281474976710656%N.
  change (2 ^ 56)%N with 72057594037927936%N.
  split.
  - intros E.
    assert (H : (N.lor 1 (hashByte hs 0) + 256 * (hashByte hs 1 + 256 * (hashByte hs 2
                  + 256 * (hashByte hs 3 + 256 * (hashByte hs 4 + 256 * (hashByte hs 5
                  + 256 * (hashByte hs 6 + 256 * hashByte hs 7))))))
                 = N.lor 1 (hashByte ht 0) + 256 * (hashByte ht 1 + 256 * (hashByte ht 2
                  + 256 * (hashByte ht 3 + 256 * (hashByte ht 4 + 256 * (hashByte ht 5
                  + 256 * (hashByte ht 6 + 256 * hashByte ht 7)))))))%N) by lia.
    clear E.
    apply digit_unique in H; [|assumption|assumption]. destruct H as [E0 H].
    apply digit_unique in H; [|assumption|assumption]. destruct H as [E1 H].
    apply digit_unique in H; [|assumption|assumption]. destruct H as [E2 H].
    apply digit_unique in H; [|assumption|assumption]. destruct H as [E3 H].
    apply digit_unique in H; [|assumption|assumption]. destruct H as [E4 H].
    apply digit_unique in H; [|assumption|assumption]. destruct H as [E5 H].
    apply digit_unique in H; [|assumption|assumption]. destruct H as [E6 E7].
    split; [assumption|]. intros i Hi.
    destruct i as [|[|[|[|[|[|[|[|i]]]]]]]]; solve [assumption | exfalso; lia].
  - intros [E0 E]. rewrite E0.
    rewrite (E 1%nat), (E 2%nat), (E 3%nat), (E 4%nat), (E 5%nat), (E 6%nat), (E 7%nat)
      by lia. reflexivity.
Qed.

End IdHashFacts.

End luacat_facts.
